(** * Request pipeline of the AI chat assistant: a shallow embedding

    The development follows the three TypeScript modules of the request
    layer:

    - the error handling utility (ErrorCode, ApplicationError,
      handleApiError, getStatusCodeFromErrorCode, logError, validators,
      asyncHandler, withRetry);
    - the API utilities (createErrorResponse, parseRequestBody,
      getPaginationParams, getAuthenticatedUser, requireAuth,
      validateMethod, isValidUUID, sanitizeString, createApiHandler and the
      type guards of the chat routes);
    - the rate limiting middleware (cleanup, RateLimiter.check,
      RateLimiter.updateCount, RateLimiter.getHeaders, the predefined
      limiters, createRateLimit, createUserRateLimit,
      SlidingWindowRateLimiter.check and cleanup).

    JavaScript numbers that hold counters and millisecond timestamps are
    integers of [Z]; strings are [string] (one [ascii] per code unit below
    256); the module-level [Map] of the rate limiter is a [gmap]; [throw],
    [try]/[catch], [Date.now()], [Math.random()] and [console.error] are the
    operations of a small state-and-exception monad over a [World]. *)

From Stdlib Require Import ZArith String Ascii List DecimalString Bool Lia.
From stdpp Require Import gmap strings list fin_maps.

Open Scope string_scope.
Open Scope Z_scope.

#[local] Set Warnings "-register-all".

(** ** Values that cross the transport boundary *)

(** A JSON-serialisable value.  [JDate ms] is a [Date] object (serialised by
    [JSON.stringify] as the ISO string of the instant [ms]). *)
Inductive json : Type :=
| JNull
| JBool (b : bool)
| JNum (n : Z)
| JStr (s : string)
| JDate (ms : Z)
| JArr (items : list json)
| JObj (fields : list (string * json)).

(** A property whose value may be [undefined]: [JSON.stringify] drops it. *)
Definition opt_field (name : string) (v : option json) : list (string * json) :=
  match v with
  | Some j => [(name, j)]
  | None => []
  end.

(** Lookup of a property of a JSON object (first binding wins). *)
Fixpoint assoc (name : string) (fields : list (string * json)) : option json :=
  match fields with
  | [] => None
  | (k, v) :: rest => if String.eqb k name then Some v else assoc name rest
  end.

Definition get_field (name : string) (j : json) : option json :=
  match j with
  | JObj fields => assoc name fields
  | _ => None
  end.

(** The fetch [Response]: status, headers as written by the code, and the
    value whose JSON text is the body ([None] for a [null] body). *)
Record Response : Type := mkResponse {
  status : Z;
  headers : list (string * string);
  body : option json
}.

(** [Response.json(data, { status })]. *)
Definition Response_json (data : json) (st : Z) : Response :=
  {| status := st;
     headers := [("content-type", "application/json")];
     body := Some data |}.

(** [error.code] of a response body [{ error: { code, ... } }]. *)
Definition error_code_of (r : Response) : option json :=
  match body r with
  | Some b => match get_field "error" b with
              | Some e => get_field "code" e
              | None => None
              end
  | None => None
  end.

(** [n.toString()] for an integral number. *)
Definition toString (n : Z) : string := NilZero.string_of_int (Z.to_int n).

(** [Math.ceil(n / d)] for integral [n] and positive [d]. *)
Definition ceil_div (n d : Z) : Z := - ((- n) / d).

(** [text.includes(pat)]. *)
Fixpoint includes (pat text : string) : bool :=
  if String.prefix pat text then true
  else match text with
       | EmptyString => false
       | String _ rest => includes pat rest
       end.

(** ** Error handling utility *)

Inductive ErrorCode : Type :=
| UNAUTHORIZED | FORBIDDEN | SESSION_EXPIRED
| VALIDATION_ERROR | INVALID_INPUT | MISSING_REQUIRED_FIELD
| DATABASE_ERROR | RECORD_NOT_FOUND | DUPLICATE_ENTRY
| EXTERNAL_API_ERROR | API_RATE_LIMITED | API_UNAVAILABLE
| AI_ERROR | TOOL_EXECUTION_ERROR
| INTERNAL_SERVER_ERROR | NETWORK_ERROR | TIMEOUT.

(** The string value of each member of the enum. *)
Definition code_string (c : ErrorCode) : string :=
  match c with
  | UNAUTHORIZED => "UNAUTHORIZED"
  | FORBIDDEN => "FORBIDDEN"
  | SESSION_EXPIRED => "SESSION_EXPIRED"
  | VALIDATION_ERROR => "VALIDATION_ERROR"
  | INVALID_INPUT => "INVALID_INPUT"
  | MISSING_REQUIRED_FIELD => "MISSING_REQUIRED_FIELD"
  | DATABASE_ERROR => "DATABASE_ERROR"
  | RECORD_NOT_FOUND => "RECORD_NOT_FOUND"
  | DUPLICATE_ENTRY => "DUPLICATE_ENTRY"
  | EXTERNAL_API_ERROR => "EXTERNAL_API_ERROR"
  | API_RATE_LIMITED => "API_RATE_LIMITED"
  | API_UNAVAILABLE => "API_UNAVAILABLE"
  | AI_ERROR => "AI_ERROR"
  | TOOL_EXECUTION_ERROR => "TOOL_EXECUTION_ERROR"
  | INTERNAL_SERVER_ERROR => "INTERNAL_SERVER_ERROR"
  | NETWORK_ERROR => "NETWORK_ERROR"
  | TIMEOUT => "TIMEOUT"
  end.

Definition all_codes : list ErrorCode :=
  [UNAUTHORIZED; FORBIDDEN; SESSION_EXPIRED;
   VALIDATION_ERROR; INVALID_INPUT; MISSING_REQUIRED_FIELD;
   DATABASE_ERROR; RECORD_NOT_FOUND; DUPLICATE_ENTRY;
   EXTERNAL_API_ERROR; API_RATE_LIMITED; API_UNAVAILABLE;
   AI_ERROR; TOOL_EXECUTION_ERROR;
   INTERNAL_SERVER_ERROR; NETWORK_ERROR; TIMEOUT].

Definition ErrorCode_eqb (a b : ErrorCode) : bool :=
  String.eqb (code_string a) (code_string b).

(** [class ApplicationError extends Error]; [message] is the inherited
    [Error.message], [timestamp] the instant of construction. *)
Record ApplicationError : Type := mkApplicationError {
  code : ErrorCode;
  message : string;
  details : option json;
  timestamp : Z;
  userId : option string;
  requestId : option string
}.

(** What a [throw] can carry: a [Response] (the escape hatch of the API
    utilities), an [ApplicationError], any other [Error] with its message,
    or a value that is not an [Error], with the text [String(v)]. *)
Inductive thrown : Type :=
| ThrownResponse (r : Response)
| ThrownApplicationError (e : ApplicationError)
| ThrownError (msg : string)
| ThrownValue (text : string).

(** [error instanceof Error] and, when it holds, [error.message]. *)
Definition error_message (t : thrown) : option string :=
  match t with
  | ThrownApplicationError e => Some (message e)
  | ThrownError msg => Some msg
  | ThrownResponse _ | ThrownValue _ => None
  end.

Inductive outcome (A : Type) : Type :=
| Returned (a : A)
| Thrown (t : thrown).
Arguments Returned {A} a.
Arguments Thrown {A} t.

(** [getStatusCodeFromErrorCode]. *)
Definition getStatusCodeFromErrorCode (c : ErrorCode) : Z :=
  match c with
  | UNAUTHORIZED | SESSION_EXPIRED => 401
  | FORBIDDEN => 403
  | RECORD_NOT_FOUND => 404
  | VALIDATION_ERROR | INVALID_INPUT | MISSING_REQUIRED_FIELD => 400
  | DUPLICATE_ENTRY => 409
  | API_RATE_LIMITED => 429
  | API_UNAVAILABLE => 503
  | TIMEOUT => 408
  | DATABASE_ERROR | EXTERNAL_API_ERROR | AI_ERROR | TOOL_EXECUTION_ERROR
  | INTERNAL_SERVER_ERROR | NETWORK_ERROR => 500
  end.

(** ** The request, the session and the world *)

(** The parts of a [NextRequest] the request layer reads: the method, the
    [x-forwarded-for] and [x-user-id] headers and the connection address
    ([None] when the header is absent or [request.ip] is [undefined]). *)
Record NextRequest : Type := mkRequest {
  method : string;
  x_forwarded_for : option string;
  ip : option string;
  x_user_id : option string
}.

(** The identity object built by [getAuthenticatedUser]. *)
Record User : Type := mkUser {
  user_id : string;
  user_email : string;
  user_name : string;
  user_image : string
}.

(** A session of next-auth; [session.user] may be missing. *)
Record Session : Type := mkSession { session_user : option User }.

(** The second argument of a domain handler: [{ params?, user? }]. *)
Record HandlerContext : Type := mkContext {
  params : option json;
  user : option User
}.

Record RateLimitRecord : Type := mkRecord {
  count : Z;
  resetTime : Z
}.

(** Effects a run leaves behind, oldest first. *)
Inductive Event : Type :=
| EvConsoleError (label : string) (payload : option thrown)
| EvSessionLookup
| EvHandler (request : NextRequest) (context : HandlerContext)
| EvOperation
| EvSleep (ms : Z).

(** The state a run can read and change.  [store] is the module-level
    [Map] of the rate limiting middleware, shared by every [RateLimiter];
    [clock n] is what the n-th call of [Date.now()] (or [new Date()])
    returns and [ticks] counts the calls so far; [random36 n] is the n-th
    value of [Math.random().toString(36).substring(2, 15)];
    [session] is what [getServerSession(authOptions)] answers. *)
Record World : Type := mkWorld {
  store : gmap string RateLimitRecord;
  clock : nat -> Z;
  ticks : nat;
  random36 : nat -> string;
  draws : nat;
  session : outcome (option Session);
  trace : list Event
}.

Definition set_store (m : gmap string RateLimitRecord) (w : World) : World :=
  {| store := m; clock := clock w; ticks := ticks w; random36 := random36 w;
     draws := draws w; session := session w; trace := trace w |}.

Definition set_ticks (n : nat) (w : World) : World :=
  {| store := store w; clock := clock w; ticks := n; random36 := random36 w;
     draws := draws w; session := session w; trace := trace w |}.

Definition set_draws (n : nat) (w : World) : World :=
  {| store := store w; clock := clock w; ticks := ticks w; random36 := random36 w;
     draws := n; session := session w; trace := trace w |}.

Definition set_trace (t : list Event) (w : World) : World :=
  {| store := store w; clock := clock w; ticks := ticks w; random36 := random36 w;
     draws := draws w; session := session w; trace := t |}.

(** ** The monad of a run: state of the world plus exceptions *)

Definition M (A : Type) : Type := World -> outcome A * World.

Definition ret {A} (a : A) : M A := fun w => (Returned a, w).

Definition throw {A} (t : thrown) : M A := fun w => (Thrown t, w).

Definition bind {A B} (m : M A) (k : A -> M B) : M B :=
  fun w => match m w with
           | (Returned a, w') => k a w'
           | (Thrown t, w') => (Thrown t, w')
           end.

(** [try { m } catch (error) { h error }]. *)
Definition try_catch {A} (m : M A) (h : thrown -> M A) : M A :=
  fun w => match m w with
           | (Returned a, w') => (Returned a, w')
           | (Thrown t, w') => h t w'
           end.

Declare Scope run_scope.
Delimit Scope run_scope with run.
Notation "'doM' x <- m ;; k" := (bind m (fun x => k))
  (at level 10, x name, m at level 99, k at level 200) : run_scope.
Notation "'seqM' m ;; k" := (bind m (fun _ => k))
  (at level 10, m at level 99, k at level 200) : run_scope.
Open Scope run_scope.

(** [Date.now()]. *)
Definition Date_now : M Z :=
  fun w => (Returned (clock w (ticks w)), set_ticks (S (ticks w)) w).

(** [Math.random().toString(36).substring(2, 15)]. *)
Definition Math_random36 : M string :=
  fun w => (Returned (random36 w (draws w)), set_draws (S (draws w)) w).

Definition emit (e : Event) : M unit :=
  fun w => (Returned tt, set_trace (trace w ++ [e]) w).

(** [console.error(label, payload)]. *)
Definition console_error (label : string) (payload : option thrown) : M unit :=
  emit (EvConsoleError label payload).

Definition get_store : M (gmap string RateLimitRecord) :=
  fun w => (Returned (store w), w).

Definition put_store (m : gmap string RateLimitRecord) : M unit :=
  fun w => (Returned tt, set_store m w).

(** [await getServerSession(authOptions)]. *)
Definition getServerSession : M (option Session) :=
  fun w => (session w, set_trace (trace w ++ [EvSessionLookup]) w).

(** The domain handler ran in this run. *)
Definition is_handler_event (e : Event) : bool :=
  match e with
  | EvHandler _ _ => true
  | _ => false
  end.

Definition handler_invoked (w : World) : bool :=
  existsb is_handler_event (trace w).

(** ** Error handling utility: constructor and responder *)

(** [new ApplicationError(code, message, details, userId, requestId)];
    the constructor stamps the error with [new Date()]. *)
Definition new_ApplicationError (c : ErrorCode) (msg : string)
    (det : option json) (uid rid : option string) : M ApplicationError :=
  doM now <- Date_now ;;
  ret {| code := c; message := msg; details := det; timestamp := now;
         userId := uid; requestId := rid |}.

(** The body [{ error: { code, message, details, timestamp } }] built for
    an [ApplicationError]. *)
Definition typed_error_body (e : ApplicationError) : json :=
  JObj [("error",
         JObj ([("code", JStr (code_string (code e)));
                ("message", JStr (message e))]
               ++ opt_field "details" (details e)
               ++ [("timestamp", JDate (timestamp e))]))].

(** The body [{ error: { code, message, timestamp: new Date() } }] of the
    three branches for errors that are not [ApplicationError]s. *)
Definition untyped_error_body (c : ErrorCode) (msg : string) (now : Z) : json :=
  JObj [("error",
         JObj [("code", JStr (code_string c));
               ("message", JStr msg);
               ("timestamp", JDate now)])].

(** [handleApiError(error, userId?, requestId?)]. *)
Definition handleApiError (error : thrown) (uid rid : option string) : M Response :=
  seqM console_error "API Error:" (Some error) ;;
  match error with
  | ThrownApplicationError e =>
      let statusCode := getStatusCodeFromErrorCode (code e) in
      ret (Response_json (typed_error_body e) statusCode)
  | _ =>
      match error_message error with
      | Some msg =>
          if includes "relation" msg && includes "does not exist" msg then
            doM now <- Date_now ;;
            ret (Response_json
                   (untyped_error_body DATABASE_ERROR
                      "Database table does not exist. Please run migrations." now)
                   500)
          else if includes "timeout" msg || includes "ECONNREFUSED" msg then
            doM now <- Date_now ;;
            ret (Response_json
                   (untyped_error_body NETWORK_ERROR
                      "Network connection failed. Please try again." now)
                   503)
          else
            doM now <- Date_now ;;
            ret (Response_json (untyped_error_body INTERNAL_SERVER_ERROR msg now) 500)
      | None =>
          doM now <- Date_now ;;
          ret (Response_json
                 (untyped_error_body INTERNAL_SERVER_ERROR
                    "An unexpected error occurred" now)
                 500)
      end
  end.

(** ** Retry helper *)

(** [error instanceof Error ? error : new Error(String(error))]. *)
Definition as_Error (error : thrown) : thrown :=
  match error with
  | ThrownApplicationError _ | ThrownError _ => error
  | ThrownResponse _ => ThrownError "[object Response]"
  | ThrownValue text => ThrownError text
  end.

(** [lastError.message] of a value produced by [as_Error]. *)
Definition message_of (error : thrown) : string :=
  match error_message error with
  | Some msg => msg
  | None => ""
  end.

(** [await new Promise(resolve => setTimeout(resolve, ms))]. *)
Definition sleep (ms : Z) : M unit := emit (EvSleep ms).

(** [throw lastError!] after the loop: [lastError] is still [undefined]
    when the body never ran. *)
Definition throw_last {T} (lastError : option thrown) : M T :=
  match lastError with
  | Some e => throw e
  | None => throw (ThrownValue "undefined")
  end.

Section WithRetry.
Context {T : Type}.
Variable operation : M T.
Variables maxRetries delay : Z.

(** The [for] loop from the iteration numbered [attempt]; [fuel] bounds
    the iterations still to run and the loop test is evaluated first. *)
Fixpoint withRetry_loop (fuel : nat) (attempt : Z) (lastError : option thrown) : M T :=
  if attempt <=? maxRetries then
    match fuel with
    | O => throw_last lastError
    | S fuel' =>
        try_catch
          (seqM emit EvOperation ;; operation)
          (fun error =>
             let lastError' := as_Error error in
             if attempt =? maxRetries then
               doM e <- new_ApplicationError EXTERNAL_API_ERROR
                          ("Operation failed after " +:+ toString maxRetries
                           +:+ " attempts: " +:+ message_of lastError')
                          (Some (JObj [("attempts", JNum maxRetries);
                                       ("lastError", JStr (message_of lastError'))]))
                          None None ;;
               throw (ThrownApplicationError e)
             else
               let waitTime := delay * 2 ^ (attempt - 1) in
               seqM sleep waitTime ;;
               withRetry_loop fuel' (attempt + 1) (Some lastError'))
    end
  else throw_last lastError.

(** [withRetry(operation, maxRetries, delay)]: the loop starts at
    attempt 1 and runs at most [maxRetries] iterations. *)
Definition withRetry : M T :=
  withRetry_loop (Z.to_nat maxRetries) 1 None.
End WithRetry.

(** Number of invocations of the operation and the waits, read off a trace. *)
Definition is_operation_event (e : Event) : bool :=
  match e with
  | EvOperation => true
  | _ => false
  end.

Definition invocations (t : list Event) : nat :=
  length (List.filter is_operation_event t).

Fixpoint sleeps (t : list Event) : list Z :=
  match t with
  | [] => []
  | EvSleep ms :: rest => ms :: sleeps rest
  | _ :: rest => sleeps rest
  end.

(** ** API utilities *)

(** [createErrorResponse(code, message, details, status)]; [details] is
    [None] for [undefined] and [Some JNull] for [null]. *)
Definition createErrorResponse (c msg : string) (det : option json) (st : Z) : M Response :=
  doM now <- Date_now ;;
  ret (Response_json
         (JObj [("success", JBool false);
                ("error", JObj ([("code", JStr c); ("message", JStr msg)]
                                ++ opt_field "details" det));
                ("meta", JObj [("timestamp", JDate now)])])
         st).

(** [getAuthenticatedUser(request)]. *)
Definition getAuthenticatedUser (request : NextRequest) : M (option User) :=
  try_catch
    (doM sess <- getServerSession ;;
     match sess with
     | None => ret None
     | Some s =>
         match session_user s with
         | None => ret None
         | Some u =>
             ret (Some {| user_id := user_id u; user_email := user_email u;
                          user_name := user_name u; user_image := user_image u |})
         end
     end)
    (fun error =>
       seqM console_error "Error getting authenticated user:" (Some error) ;;
       ret None).

(** [requireAuth(request)]: throws a 401 [Response]. *)
Definition requireAuth (request : NextRequest) : M User :=
  doM u <- getAuthenticatedUser request ;;
  match u with
  | None =>
      doM r <- createErrorResponse "UNAUTHORIZED" "Authentication required"
                 (Some JNull) 401 ;;
      throw (ThrownResponse r)
  | Some u' => ret u'
  end.

(** [allowedMethods.includes(request.method)]. *)
Definition method_allowed (allowedMethods : list string) (m : string) : bool :=
  existsb (String.eqb m) allowedMethods.

(** [validateMethod(request, allowedMethods)]: throws a 405 [Response]. *)
Definition validateMethod (request : NextRequest) (allowedMethods : list string) : M unit :=
  if negb (method_allowed allowedMethods (method request)) then
    doM r <- createErrorResponse "METHOD_NOT_ALLOWED"
               ("Method " +:+ method request +:+ " not allowed. Allowed methods: "
                +:+ String.concat ", " allowedMethods)
               (Some (JObj [("allowedMethods", JArr (List.map JStr allowedMethods))]))
               405 ;;
    throw (ThrownResponse r)
  else ret tt.

(** [generateRequestId()]. *)
Definition generateRequestId : M string :=
  doM now <- Date_now ;;
  doM rnd <- Math_random36 ;;
  ret ("req_" +:+ toString now +:+ "_" +:+ rnd).

(** The [options] of [createApiHandler]; an absent field is [None]. *)
Record ApiHandlerOptions : Type := mkOptions {
  opt_requireAuth : option bool;
  opt_allowedMethods : option (list string);
  opt_rateLimiter : option (NextRequest -> M (option Response))
}.

Definition DomainHandler : Type := NextRequest -> HandlerContext -> M Response.

(** The [catch] block of the wrapped handler. *)
Definition api_handler_catch (rid : string) (error : thrown) : M Response :=
  seqM console_error ("API Error [" +:+ rid +:+ "]:") (Some error) ;;
  match error with
  | ThrownResponse r => ret r
  | _ =>
      match error_message error with
      | Some msg =>
          createErrorResponse "INTERNAL_SERVER_ERROR" msg
            (Some (JObj [("requestId", JStr rid)])) 500
      | None =>
          createErrorResponse "INTERNAL_SERVER_ERROR" "An unexpected error occurred"
            (Some (JObj [("requestId", JStr rid)])) 500
      end
  end.

(** The [try] block of the wrapped handler.  A [return] inside the rate
    limiting step leaves the block with the limiter's response. *)
Definition api_handler_try (handler : DomainHandler) (options : ApiHandlerOptions)
    (request : NextRequest) (context : option json) : M Response :=
  seqM match opt_allowedMethods options with
       | Some allowed => validateMethod request allowed
       | None => ret tt
       end ;;
  doM rateLimitResponse <-
      match opt_rateLimiter options with
      | Some limiter => limiter request
      | None => ret None
      end ;;
  match rateLimitResponse with
  | Some r => ret r
  | None =>
      doM u <- (if match opt_requireAuth options with Some b => b | None => false end
                then doM u' <- requireAuth request ;; ret (Some u')
                else getAuthenticatedUser request) ;;
      let ctx := {| params := context; user := u |} in
      seqM emit (EvHandler request ctx) ;;
      handler request ctx
  end.

(** [createApiHandler(handler, options)] applied to [(request, context)];
    [context] is the [params] of the route, [None] when missing. *)
Definition createApiHandler (handler : DomainHandler) (options : ApiHandlerOptions)
    (request : NextRequest) (context : option json) : M Response :=
  doM rid <- generateRequestId ;;
  try_catch (api_handler_try handler options request context)
            (api_handler_catch rid).

(** ** Rate limiting middleware *)

(** [forwarded.split(',')[0]]: the text before the first comma. *)
Fixpoint first_segment (s : string) : string :=
  match s with
  | EmptyString => EmptyString
  | String c rest =>
      if Ascii.eqb c "," then EmptyString else String c (first_segment rest)
  end.

(** [defaultKeyGenerator(request)]; an empty header is falsy and an
    [undefined] address prints as "undefined". *)
Definition defaultKeyGenerator (request : NextRequest) : M string :=
  let address :=
    match x_forwarded_for request with
    | Some forwarded =>
        if String.eqb forwarded "" then
          match ip request with Some a => a | None => "undefined" end
        else first_segment forwarded
    | None => match ip request with Some a => a | None => "undefined" end
    end in
  ret ("rate_limit:" +:+ address).

(** [Required<RateLimitConfig>] as the constructor of [RateLimiter] leaves
    it.  A key generator is caller code and may throw. *)
Record RateLimitConfig : Type := mkConfig {
  windowMs : Z;
  maxRequests : Z;
  skipSuccessfulRequests : bool;
  skipFailedRequests : bool;
  keyGenerator : NextRequest -> M string;
  limit_message : string
}.

(** [new RateLimiter({ windowMs, maxRequests })] with every default. *)
Definition default_config (window maxReq : Z) : RateLimitConfig :=
  {| windowMs := window; maxRequests := maxReq;
     skipSuccessfulRequests := false; skipFailedRequests := false;
     keyGenerator := defaultKeyGenerator;
     limit_message := "Too many requests, please try again later." |}.

(** The four predefined limiters. *)
Definition apiLimiter : RateLimitConfig := default_config (60 * 1000) 100.

Definition chatLimiter : RateLimitConfig :=
  {| windowMs := 60 * 1000; maxRequests := 60;
     skipSuccessfulRequests := false; skipFailedRequests := false;
     keyGenerator := defaultKeyGenerator;
     limit_message := "Too many chat requests, please wait a moment." |}.

Definition authLimiter : RateLimitConfig :=
  {| windowMs := 15 * 60 * 1000; maxRequests := 10;
     skipSuccessfulRequests := false; skipFailedRequests := false;
     keyGenerator := defaultKeyGenerator;
     limit_message := "Too many authentication attempts, please try again later." |}.

(** [request.headers.get('x-user-id')], with the empty string falsy. *)
Definition user_id_header (request : NextRequest) : option string :=
  match x_user_id request with
  | Some u => if String.eqb u "" then None else Some u
  | None => None
  end.

Definition externalApiLimiter : RateLimitConfig :=
  {| windowMs := 60 * 60 * 1000; maxRequests := 100;
     skipSuccessfulRequests := false; skipFailedRequests := false;
     keyGenerator := fun request =>
       doM userId <- match user_id_header request with
                     | Some u => ret u
                     | None => defaultKeyGenerator request
                     end ;;
       ret ("external_api:" +:+ userId);
     limit_message := "Too many requests, please try again later." |}.

(** [createUserRateLimit(config)]: the limiter of [config] keyed by user. *)
Definition createUserRateLimit (config : RateLimitConfig) : RateLimitConfig :=
  {| windowMs := windowMs config; maxRequests := maxRequests config;
     skipSuccessfulRequests := skipSuccessfulRequests config;
     skipFailedRequests := skipFailedRequests config;
     keyGenerator := fun request =>
       match user_id_header request with
       | None => defaultKeyGenerator request
       | Some userId => ret ("user_rate_limit:" +:+ userId)
       end;
     limit_message := limit_message config |}.

(** [record.resetTime < now]. *)
Definition expired (now : Z) (r : RateLimitRecord) : bool := resetTime r <? now.

(** [cleanup()]: delete every record whose [resetTime] is before now. *)
Definition cleanup : M unit :=
  doM now <- Date_now ;;
  doM m <- get_store ;;
  put_store (filter (fun kv => expired now kv.2 = false) m).

Record CheckResult : Type := mkCheckResult {
  allowed : bool;
  remaining : Z;
  cr_resetTime : Z
}.

Module RateLimiter.

(** [RateLimiter.check(request)]. *)
Definition check (config : RateLimitConfig) (request : NextRequest) : M CheckResult :=
  seqM cleanup ;;
  doM key <- keyGenerator config request ;;
  doM now <- Date_now ;;
  doM m <- get_store ;;
  let record :=
    match m !! key with
    | Some r => if expired now r
                then {| count := 0; resetTime := now + windowMs config |}
                else r
    | None => {| count := 0; resetTime := now + windowMs config |}
    end in
  let allowed := count record <? maxRequests config in
  let remaining := Z.max 0 (maxRequests config - count record - 1) in
  if allowed then
    let record' := {| count := count record + 1; resetTime := resetTime record |} in
    seqM put_store (<[key := record']> m) ;;
    ret {| allowed := allowed; remaining := remaining;
           cr_resetTime := resetTime record' |}
  else
    ret {| allowed := allowed; remaining := remaining;
           cr_resetTime := resetTime record |}.

(** [RateLimiter.updateCount(request, success)]. *)
Definition updateCount (config : RateLimitConfig) (request : NextRequest)
    (success : bool) : M unit :=
  if (success && skipSuccessfulRequests config)
     || (negb success && skipFailedRequests config) then
    doM key <- keyGenerator config request ;;
    doM m <- get_store ;;
    match m !! key with
    | Some r =>
        put_store (<[key := {| count := Z.max 0 (count r - 1);
                               resetTime := resetTime r |}]> m)
    | None => ret tt
    end
  else ret tt.

(** [RateLimiter.getHeaders(remaining, resetTime)]. *)
Definition getHeaders (config : RateLimitConfig) (remaining resetTime : Z)
    : list (string * string) :=
  [("X-RateLimit-Limit", toString (maxRequests config));
   ("X-RateLimit-Remaining", toString remaining);
   ("X-RateLimit-Reset", toString (ceil_div resetTime 1000));
   ("X-RateLimit-Window", toString (ceil_div (windowMs config) 1000))].

End RateLimiter.

(** What [createRateLimit] uses of the limiter object it is given. *)
Class Limiter (L : Type) : Type := {
  limiter_check : L -> NextRequest -> M CheckResult;
  limiter_getHeaders : L -> Z -> Z -> M (list (string * string));
  limiter_message : L -> string
}.

#[export] Instance RateLimiter_Limiter : Limiter RateLimitConfig := {
  limiter_check := RateLimiter.check;
  limiter_getHeaders := fun config remaining resetTime =>
                          ret (RateLimiter.getHeaders config remaining resetTime);
  limiter_message := limit_message
}.

(** [createRateLimit(limiter)] applied to a request. *)
Definition createRateLimit {L} `{Limiter L} (limiter : L) (request : NextRequest)
    : M (option Response) :=
  try_catch
    (doM res <- limiter_check limiter request ;;
     doM hdrs <- limiter_getHeaders limiter (remaining res) (cr_resetTime res) ;;
     if negb (allowed res) then
       doM now1 <- Date_now ;;
       doM now2 <- Date_now ;;
       ret (Some
              {| status := 429;
                 headers :=
                   [("Content-Type", "application/json");
                    ("Retry-After", toString (ceil_div (cr_resetTime res - now2) 1000))]
                   ++ hdrs;
                 body :=
                   Some (JObj [("error",
                           JObj [("code", JStr "RATE_LIMITED");
                                 ("message", JStr (limiter_message limiter));
                                 ("retryAfter",
                                  JNum (ceil_div (cr_resetTime res - now1) 1000))])]) |})
     else
       ret (Some {| status := 200; headers := hdrs; body := None |}))
    (fun error =>
       seqM console_error "Rate limiting error:" (Some error) ;;
       ret None).

(** ** Sliding window limiter *)

Record SlidingResult : Type := mkSlidingResult {
  sw_allowed : bool;
  sw_remaining : Z
}.

Module SlidingWindowRateLimiter.

(** [SlidingWindowRateLimiter.check(request)]; [requests] is the
    private map of the instance, returned with the result. *)
Definition check (config : RateLimitConfig) (request : NextRequest)
    (requests : gmap string (list Z)) : M (SlidingResult * gmap string (list Z)) :=
  doM key <- keyGenerator config request ;;
  doM now <- Date_now ;;
  let windowStart := now - windowMs config in
  let existing := match requests !! key with Some l => l | None => [] end in
  let kept := List.filter (fun timestamp => windowStart <? timestamp) existing in
  let allowed := Z.of_nat (length kept) <? maxRequests config in
  let remaining :=
    Z.max 0 (maxRequests config - Z.of_nat (length kept) - (if allowed then 1 else 0)) in
  if allowed then
    ret ({| sw_allowed := allowed; sw_remaining := remaining |},
         <[key := (kept ++ [now])%list]> requests)
  else
    ret ({| sw_allowed := allowed; sw_remaining := remaining |}, requests).

(** [SlidingWindowRateLimiter.cleanup()]. *)
Definition cleanup (config : RateLimitConfig) (requests : gmap string (list Z))
    : M (gmap string (list Z)) :=
  doM now <- Date_now ;;
  let cutoff := now - windowMs config in
  ret (filter (fun kv => kv.2 <> [])
         ((List.filter (fun timestamp => cutoff <? timestamp)) <$> requests)).

End SlidingWindowRateLimiter.

(** ** Regular expressions of the validators *)

(** The fragment of JavaScript regular expressions the validators use:
    character classes, concatenation, [+] and [{n}].  Both patterns are
    anchored by [^] and [$], so [RegExp.test] asks for a match of the whole
    subject. *)
Inductive regex : Type :=
| Void
| Eps
| Class (p : ascii -> bool)
| Cat (r1 r2 : regex)
| Alt (r1 r2 : regex)
| Star (r : regex).

(** [r+]. *)
Definition Plus (r : regex) : regex := Cat r (Star r).

(** [r{n}]. *)
Fixpoint Repeat (n : nat) (r : regex) : regex :=
  match n with
  | O => Eps
  | S k => Cat r (Repeat k r)
  end.

Fixpoint nullable (r : regex) : bool :=
  match r with
  | Void => false
  | Eps => true
  | Class _ => false
  | Cat r1 r2 => nullable r1 && nullable r2
  | Alt r1 r2 => nullable r1 || nullable r2
  | Star _ => true
  end.

(** Derivative of [r] by the character [c]. *)
Fixpoint deriv (c : ascii) (r : regex) : regex :=
  match r with
  | Void => Void
  | Eps => Void
  | Class p => if p c then Eps else Void
  | Cat r1 r2 =>
      if nullable r1 then Alt (Cat (deriv c r1) r2) (deriv c r2)
      else Cat (deriv c r1) r2
  | Alt r1 r2 => Alt (deriv c r1) (deriv c r2)
  | Star r1 => Cat (deriv c r1) (Star r1)
  end.

(** [/^r$/.test(s)]. *)
Fixpoint test (r : regex) (s : string) : bool :=
  match s with
  | EmptyString => nullable r
  | String c rest => test (deriv c r) rest
  end.

(** The words of a regular expression. *)
Inductive lang : regex -> string -> Prop :=
| lang_eps : lang Eps EmptyString
| lang_class p c : p c = true -> lang (Class p) (String c EmptyString)
| lang_cat r1 r2 s1 s2 : lang r1 s1 -> lang r2 s2 -> lang (Cat r1 r2) (s1 +:+ s2)
| lang_alt_l r1 r2 s : lang r1 s -> lang (Alt r1 r2) s
| lang_alt_r r1 r2 s : lang r2 s -> lang (Alt r1 r2) s
| lang_star_nil r : lang (Star r) EmptyString
| lang_star_app r s1 s2 : lang r s1 -> lang (Star r) s2 -> lang (Star r) (s1 +:+ s2).

Definition code_unit (c : ascii) : nat := nat_of_ascii c.

Definition in_range (lo hi c : ascii) : bool :=
  (code_unit lo <=? code_unit c)%nat && (code_unit c <=? code_unit hi)%nat.

(** [\s] on code units below 256: tab, line feed, vertical tab, form feed,
    carriage return, space and no-break space. *)
Definition is_space (c : ascii) : bool :=
  ((9 <=? code_unit c)%nat && (code_unit c <=? 13)%nat)
  || (code_unit c =? 32)%nat || (code_unit c =? 160)%nat.

Definition to_lower (c : ascii) : ascii :=
  if in_range "A" "Z" c then ascii_of_nat (code_unit c + 32) else c.

Definition to_upper (c : ascii) : ascii :=
  if in_range "a" "z" c then ascii_of_nat (code_unit c - 32) else c.

(** A class under the [i] flag: a character matches when it or its other
    case is in the class. *)
Definition ignore_case (p : ascii -> bool) (c : ascii) : bool :=
  p c || p (to_lower c) || p (to_upper c).

(** [[^\s@]]. *)
Definition not_space_or_at (c : ascii) : bool :=
  negb (is_space c || Ascii.eqb c "@").

(** [[0-9a-f]], [[1-5]] and [[89ab]] as written, before the [i] flag. *)
Definition hex_lower (c : ascii) : bool := in_range "0" "9" c || in_range "a" "f" c.
Definition one_to_five (c : ascii) : bool := in_range "1" "5" c.
Definition variant_lower (c : ascii) : bool :=
  Ascii.eqb c "8" || Ascii.eqb c "9" || Ascii.eqb c "a" || Ascii.eqb c "b".

Definition Chr (a : ascii) : regex := Class (Ascii.eqb a).

(** [/^[^\s@]+@[^\s@]+\.[^\s@]+$/]. *)
Definition emailRegex : regex :=
  Cat (Plus (Class not_space_or_at))
      (Cat (Chr "@")
           (Cat (Plus (Class not_space_or_at))
                (Cat (Chr ".") (Plus (Class not_space_or_at))))).

(** [/^[0-9a-f]{8}-[0-9a-f]{4}-[1-5][0-9a-f]{3}-[89ab][0-9a-f]{3}-[0-9a-f]{12}$/i]. *)
Definition uuidRegex : regex :=
  let hex := Class (ignore_case hex_lower) in
  let dash := Class (ignore_case (Ascii.eqb "-")) in
  Cat (Repeat 8 hex)
      (Cat dash
           (Cat (Repeat 4 hex)
                (Cat dash
                     (Cat (Class (ignore_case one_to_five))
                          (Cat (Repeat 3 hex)
                               (Cat dash
                                    (Cat (Class (ignore_case variant_lower))
                                         (Cat (Repeat 3 hex)
                                              (Cat dash (Repeat 12 hex)))))))))).

(** ** Validators of the error handling utility *)

Module validators.

(** [validators.email(value, fieldName = 'email')]. *)
Definition email (value : string) (fieldName : option string) : M unit :=
  let fieldName := match fieldName with Some f => f | None => "email" end in
  if negb (test emailRegex value) then
    doM e <- new_ApplicationError VALIDATION_ERROR
               (fieldName +:+ " must be a valid email address")
               (Some (JObj [("field", JStr fieldName); ("value", JStr value)]))
               None None ;;
    throw (ThrownApplicationError e)
  else ret tt.

(** [validators.uuid(value, fieldName)]. *)
Definition uuid (value : string) (fieldName : string) : M unit :=
  if negb (test uuidRegex value) then
    doM e <- new_ApplicationError VALIDATION_ERROR
               (fieldName +:+ " must be a valid UUID")
               (Some (JObj [("field", JStr fieldName); ("value", JStr value)]))
               None None ;;
    throw (ThrownApplicationError e)
  else ret tt.

(** [typeof value]; [None] is [undefined]. *)
Definition typeof (value : option json) : string :=
  match value with
  | None => "undefined"
  | Some (JBool _) => "boolean"
  | Some (JNum _) => "number"
  | Some (JStr _) => "string"
  | Some JNull | Some (JDate _) | Some (JArr _) | Some (JObj _) => "object"
  end.

(** [validators.required(value, fieldName)]. *)
Definition required (value : option json) (fieldName : string) : M unit :=
  match value with
  | None | Some JNull | Some (JStr EmptyString) =>
      doM e <- new_ApplicationError MISSING_REQUIRED_FIELD
                 (fieldName +:+ " is required")
                 (Some (JObj [("field", JStr fieldName)]))
                 None None ;;
      throw (ThrownApplicationError e)
  | _ => ret tt
  end.

(** [validators.string(value, fieldName, minLength?, maxLength?)]. *)
Definition string (value : option json) (fieldName : String.string)
    (minLength maxLength : option Z) : M unit :=
  match value with
  | Some (JStr text) =>
      let len := Z.of_nat (String.length text) in
      if match minLength with Some lo => len <? lo | None => false end then
        doM e <- new_ApplicationError VALIDATION_ERROR
                   (fieldName +:+ " must be at least "
                    +:+ toString (match minLength with Some lo => lo | None => 0 end)
                    +:+ " characters")
                   (Some (JObj ([("field", JStr fieldName)]
                                ++ opt_field "minLength" (option_map JNum minLength)
                                ++ [("currentLength", JNum len)])))
                   None None ;;
        throw (ThrownApplicationError e)
      else if match maxLength with Some hi => hi <? len | None => false end then
        doM e <- new_ApplicationError VALIDATION_ERROR
                   (fieldName +:+ " must be no more than "
                    +:+ toString (match maxLength with Some hi => hi | None => 0 end)
                    +:+ " characters")
                   (Some (JObj ([("field", JStr fieldName)]
                                ++ opt_field "maxLength" (option_map JNum maxLength)
                                ++ [("currentLength", JNum len)])))
                   None None ;;
        throw (ThrownApplicationError e)
      else ret tt
  | _ =>
      doM e <- new_ApplicationError INVALID_INPUT
                 (fieldName +:+ " must be a string")
                 (Some (JObj [("field", JStr fieldName); ("type", JStr "string");
                              ("received", JStr (typeof value))]))
                 None None ;;
      throw (ThrownApplicationError e)
  end.

End validators.

(** ** Logging and the wrapper for asynchronous functions *)

(** [logError(error, context)]; [production] is
    [process.env.NODE_ENV === 'production'].  The payload of the production
    line stands for the JSON text of the error data. *)
Definition logError (production : bool) (error : thrown) (context : option string)
    : M unit :=
  doM timestamp <- Date_now ;;
  if production then console_error "Production Error:" (Some error)
  else
    console_error
      ("[ERROR] "
       +:+ match context with
           | Some c => if String.eqb c "" then "Unknown Context" else c
           | None => "Unknown Context"
           end
       +:+ ":")
      (Some error).

(** [asyncHandler(fn)(...args)]; [name] is [fn.name] and [fn] the call
    [fn(...args)]. *)
Definition asyncHandler {R} (production : bool) (name : string) (fn : M R) : M R :=
  try_catch fn
    (fun error =>
       match error with
       | ThrownApplicationError e =>
           seqM logError production error (Some name) ;;
           throw error
       | _ =>
           doM appError <- new_ApplicationError INTERNAL_SERVER_ERROR
                             match error_message error with
                             | Some msg => msg
                             | None => "Unknown error occurred"
                             end
                             None None None ;;
           seqM logError production (ThrownApplicationError appError) (Some name) ;;
           throw (ThrownApplicationError appError)
       end).

(** A version 4 UUID in the textual form of RFC 4122,
    xxxxxxxx-xxxx-4xxx-yxxx-xxxxxxxxxxxx: hexadecimal digits of either
    case, the version digit 4 and a variant digit among 8, 9, a, b. *)
Definition is_hex_digit (c : ascii) : bool :=
  in_range "0" "9" c || in_range "a" "f" c || in_range "A" "F" c.

Definition is_variant_digit (c : ascii) : bool :=
  Ascii.eqb c "8" || Ascii.eqb c "9" || Ascii.eqb c "a" || Ascii.eqb c "b"
  || Ascii.eqb c "A" || Ascii.eqb c "B".

Fixpoint fits (template : list (ascii -> bool)) (s : string) : bool :=
  match template, s with
  | [], EmptyString => true
  | p :: template', String c rest => p c && fits template' rest
  | _, _ => false
  end.

Definition uuid_v4_template : list (ascii -> bool) :=
  (repeat is_hex_digit 8 ++ [Ascii.eqb "-"]
   ++ repeat is_hex_digit 4 ++ [Ascii.eqb "-"]
   ++ [Ascii.eqb "4"] ++ repeat is_hex_digit 3 ++ [Ascii.eqb "-"]
   ++ [is_variant_digit] ++ repeat is_hex_digit 3 ++ [Ascii.eqb "-"]
   ++ repeat is_hex_digit 12)%list.

Definition is_uuid_v4 (s : string) : bool := fits uuid_v4_template s.

(** ** The status table of the specification and the initial world *)

(** The table of section 4.2, row by row: the kinds of a row and the
    transport status the row assigns to them. *)
Definition status_table : list (list ErrorCode * Z) :=
  [([UNAUTHORIZED; SESSION_EXPIRED], 401);
   ([FORBIDDEN], 403);
   ([RECORD_NOT_FOUND], 404);
   ([VALIDATION_ERROR; INVALID_INPUT; MISSING_REQUIRED_FIELD], 400);
   ([DUPLICATE_ENTRY], 409);
   ([API_RATE_LIMITED], 429);
   ([TIMEOUT], 408);
   ([API_UNAVAILABLE], 503);
   ([DATABASE_ERROR; EXTERNAL_API_ERROR; AI_ERROR; TOOL_EXECUTION_ERROR;
     INTERNAL_SERVER_ERROR; NETWORK_ERROR], 500)].

(** Every status the table assigns to a kind, in row order. *)
Definition table_statuses (c : ErrorCode) : list Z :=
  List.map snd (List.filter (fun row => existsb (ErrorCode_eqb c) (fst row)) status_table).

(** A world at process start: empty store, a clock that reads one second
    later at every call, no session. *)
Definition initial_world : World :=
  {| store := ∅;
     clock := fun n => 1000 * Z.of_nat n;
     ticks := O;
     random36 := fun _ => "k3j9x0";
     draws := O;
     session := Returned None;
     trace := [] |}.

Definition sample_request : NextRequest :=
  {| method := "GET"; x_forwarded_for := Some "203.0.113.7, 10.0.0.1";
     ip := None; x_user_id := None |}.

(** The classification claimed for an [Error] that is not an
    [ApplicationError] and whose message mentions a timeout or a refused
    connection: code NETWORK_ERROR with the status of the table. *)
Definition classified_as_network_with_table_status (msg : string) (w : World) : Prop :=
  includes "timeout" msg || includes "ECONNREFUSED" msg = true ->
  exists r w',
    handleApiError (ThrownError msg) None None w = (Returned r, w') /\
    error_code_of r = Some (JStr (code_string NETWORK_ERROR)) /\
    table_statuses NETWORK_ERROR = [status r].

(** An operation that fails on every invocation, in whatever world it
    is started. *)
Definition always_fails {T} (operation : M T) : Prop :=
  forall w, exists t w', operation w = (Thrown t, w').

(** The invocations and sleeps of a trace, in order. *)
Definition is_retry_event (e : Event) : bool :=
  match e with
  | EvOperation | EvSleep _ => true
  | _ => false
  end.

Definition retry_events (t : list Event) : list Event := List.filter is_retry_event t.

(** The operation does not itself write invocation or sleep marks into
    the trace: those are left to the retry helper. *)
Definition unobserved {T} (operation : M T) : Prop :=
  forall w, retry_events (trace (operation w).2) = retry_events (trace w).

(** [n + 1] invocations starting with the one numbered [attempt], with the
    wait [delay * 2^(attempt-1)] after each but the last. *)
Fixpoint retry_schedule (delay attempt : Z) (n : nat) : list Event :=
  match n with
  | O => [EvOperation]
  | S k => EvOperation :: EvSleep (delay * 2 ^ (attempt - 1))
           :: retry_schedule delay (attempt + 1) k
  end.

(** The world in which an invocation of the operation starts, and the
    world after a wait of [ms]. *)
Definition invoked (w : World) : World := set_trace (trace w ++ [EvOperation]) w.

Definition slept (ms : Z) (w : World) : World := set_trace (trace w ++ [EvSleep ms]) w.

(** [n + 1] invocations of [operation] in a row that all fail, the first
    numbered [attempt] and started in [w], each but the last followed by the
    wait [delay * 2^(attempt-1)]: what the last invocation threw and the
    world it left.  [None] when one of them returns. *)
Fixpoint failing_run {T} (operation : M T) (delay attempt : Z) (n : nat) (w : World)
    : option (thrown * World) :=
  match operation (invoked w) with
  | (Returned _, _) => None
  | (Thrown t, w1) =>
      match n with
      | O => Some (t, w1)
      | S k => failing_run operation delay (attempt + 1) k
                 (slept (delay * 2 ^ (attempt - 1)) w1)
      end
  end.

(** The key generator of [config] maps [request] to [key] and has no
    effect of its own (as [defaultKeyGenerator] and the header-based
    generators do). *)
Definition generates_key (config : RateLimitConfig) (request : NextRequest)
    (key : string) : Prop :=
  forall w, keyGenerator config request w = (Returned key, w).

(** [Date.now()] never goes back. *)
Definition monotone_clock (w : World) : Prop :=
  forall i : nat, clock w i <= clock w (S i).

(** The world after a call of [check]: two readings of the clock were
    taken and the store is [m]. *)
Definition after_check (m : gmap string RateLimitRecord) (w : World) : World :=
  set_store m (set_ticks (S (S (ticks w))) w).

(** The records [cleanup] keeps at the instant [now]. *)
Definition swept (now : Z) (m : gmap string RateLimitRecord)
    : gmap string RateLimitRecord :=
  filter (fun kv => expired now kv.2 = false) m.

(** The record [check] works on: the stored one when it is still in its
    window, a fresh window otherwise. *)
Definition current_record (config : RateLimitConfig) (now : Z)
    (stored : option RateLimitRecord) : RateLimitRecord :=
  match stored with
  | Some r => if expired now r
              then {| count := 0; resetTime := now + windowMs config |}
              else r
  | None => {| count := 0; resetTime := now + windowMs config |}
  end.

(** [n] consecutive calls of [limiter.check(request)], results in order. *)
Fixpoint check_many (config : RateLimitConfig) (request : NextRequest) (n : nat)
    : M (list CheckResult) :=
  match n with
  | O => ret []
  | S k =>
      doM r <- RateLimiter.check config request ;;
      doM rs <- check_many config request k ;;
      ret (r :: rs)
  end.

(** A world whose clock reads one second later at each of the first ten
    calls and has jumped ten minutes ahead from the eleventh on. *)
Definition idle_gap_world : World :=
  {| store := ∅;
     clock := fun n => if (n <? 10)%nat then 1000 * Z.of_nat n
                       else 600000 + 1000 * Z.of_nat n;
     ticks := O;
     random36 := fun _ => "k3j9x0";
     draws := O;
     session := Returned None;
     trace := [] |}.

(** An admission recorded at [admitted] still counts against a check at
    [now] when less than a window has gone by since. *)
Definition counts_against (window now admitted : Z) : bool :=
  now - admitted <? window.

(** The kinds of the ValidationError family (the 400 row of the table). *)
Definition validation_family (c : ErrorCode) : bool :=
  match c with
  | VALIDATION_ERROR | INVALID_INPUT | MISSING_REQUIRED_FIELD => true
  | _ => false
  end.

(** The error is of the ValidationError family and its [details] name
    [field] as the offending field. *)
Definition validation_failure (e : ApplicationError) (field : string) : Prop :=
  validation_family (code e) = true /\
  match details e with
  | Some d => get_field "field" d = Some (JStr field)
  | None => False
  end.

(** *** The stages of the wrapped handler, named

    [api_handler_try] is one block in the source; the statements below
    speak of its steps one at a time. *)

(** The world after [generateRequestId()] and the identifier it built. *)
Definition after_request_id (w : World) : World :=
  set_draws (S (draws w)) (set_ticks (S (ticks w)) w).

Definition request_id_of (w : World) : string :=
  "req_" +:+ toString (clock w (ticks w)) +:+ "_" +:+ random36 w (draws w).

(** Step 1: method validation. *)
Definition method_stage (options : ApiHandlerOptions) (request : NextRequest) : M unit :=
  match opt_allowedMethods options with
  | Some allowed => validateMethod request allowed
  | None => ret tt
  end.

(** Step 2: the configured rate limiter, if any. *)
Definition limiter_stage (options : ApiHandlerOptions) (request : NextRequest)
    : M (option Response) :=
  match opt_rateLimiter options with
  | Some limiter => limiter request
  | None => ret None
  end.

(** Step 3: identity resolution. *)
Definition auth_stage (options : ApiHandlerOptions) (request : NextRequest)
    : M (option User) :=
  if match opt_requireAuth options with Some b => b | None => false end
  then doM u' <- requireAuth request ;; ret (Some u')
  else getAuthenticatedUser request.

(** Step 4: the call of the domain handler. *)
Definition handler_stage (handler : DomainHandler) (request : NextRequest)
    (context : option json) (u : option User) : M Response :=
  let ctx := {| params := context; user := u |} in
  seqM emit (EvHandler request ctx) ;;
  handler request ctx.

(** The request passes the method check and the rate limiter and its
    identity resolves to [u], which leaves the world [w1]. *)
Definition reaches_handler (options : ApiHandlerOptions) (request : NextRequest)
    (w w1 : World) (u : option User) : Prop :=
  exists wa wb,
    method_stage options request (after_request_id w) = (Returned tt, wa) /\
    limiter_stage options request wa = (Returned None, wb) /\
    auth_stage options request wb = (Returned u, w1).

(** The session state holds no identity: the lookup fails, finds no
    session, or finds a session without a user. *)
Definition no_identity (w : World) : Prop :=
  match session w with
  | Returned (Some s) => session_user s = None
  | Returned None => True
  | Thrown _ => True
  end.

(** The world after [console.error(label, error)]. *)
Definition logged (label : string) (error : thrown) (w : World) : World :=
  set_trace (trace w ++ [EvConsoleError label (Some error)]) w.

(** Between [w1] and [w'] the trace only grew, and by no handler call. *)
Definition no_handler_since (w1 w' : World) : Prop :=
  exists added, trace w' = (trace w1 ++ added)%list /\
                existsb is_handler_event added = false.

(** The request passes the method check of the options. *)
Definition method_permitted (options : ApiHandlerOptions) (request : NextRequest) : bool :=
  match opt_allowedMethods options with
  | Some allowedMethods => method_allowed allowedMethods (method request)
  | None => true
  end.

(** The claim that the wrapper answers a typed error thrown by the domain
    handler as the error responder would: with the status of the table for
    its kind and with its own code. *)
Definition wrapper_answers_as_responder (handler : DomainHandler)
    (options : ApiHandlerOptions) (request : NextRequest) (context : option json)
    (w : World) : Prop :=
  forall e w1 u w2,
    reaches_handler options request w w1 u ->
    handler_stage handler request context u w1
      = (Thrown (ThrownApplicationError e), w2) ->
    exists r w',
      createApiHandler handler options request context w = (Returned r, w') /\
      table_statuses (code e) = [status r] /\
      error_code_of r = Some (JStr (code_string (code e))).

(** A domain handler that reports a missing chat with a typed error. *)
Definition chat_not_found_handler : DomainHandler :=
  fun _ _ =>
    doM e <- new_ApplicationError RECORD_NOT_FOUND "Chat not found" None None None ;;
    throw (ThrownApplicationError e).

(** A domain handler that answers 201 with a small body. *)
Definition created_handler : DomainHandler :=
  fun _ _ => ret (Response_json (JObj [("chat", JObj [("title", JStr "Trip")])]) 201).

Definition no_options : ApiHandlerOptions :=
  {| opt_requireAuth := None; opt_allowedMethods := None; opt_rateLimiter := None |}.

(** Options of a rate limited route: GET and POST, the chat limiter
    wrapped by [createRateLimit], no authentication requirement. *)
Definition limited_options : ApiHandlerOptions :=
  {| opt_requireAuth := None;
     opt_allowedMethods := Some ["GET"; "POST"];
     opt_rateLimiter := Some (createRateLimit chatLimiter) |}.

(** The options with the rate limiter taken out. *)
Definition without_rate_limit (options : ApiHandlerOptions) : ApiHandlerOptions :=
  {| opt_requireAuth := opt_requireAuth options;
     opt_allowedMethods := opt_allowedMethods options;
     opt_rateLimiter := None |}.

(** The limiter fails inside the middleware: [check] throws, or [check]
    returns and the construction of the headers throws. *)
Definition limiter_failure {L} `{Limiter L} (limiter : L) (request : NextRequest)
    (w : World) (t : thrown) (w1 : World) : Prop :=
  limiter_check limiter request w = (Thrown t, w1) \/
  exists res wc,
    limiter_check limiter request w = (Returned res, wc) /\
    limiter_getHeaders limiter (remaining res) (cr_resetTime res) wc = (Thrown t, w1).

(** A limiter whose key generator cannot derive a key. *)
Definition keyless_config : RateLimitConfig :=
  {| windowMs := 60000; maxRequests := 60;
     skipSuccessfulRequests := false; skipFailedRequests := false;
     keyGenerator := fun _ => throw (ThrownError "cannot derive a key");
     limit_message := "Too many requests, please try again later." |}.

(** [headers.get(name)] on the headers a response was built with. *)
Fixpoint assoc_header (name : string) (hs : list (string * string)) : option string :=
  match hs with
  | [] => None
  | (k, v) :: rest => if String.eqb k name then Some v else assoc_header name rest
  end.

(** An operation whose answer is fixed by how many invocations the trace
    holds when it runs, its own included: [script n] is what the n-th
    invocation answers. *)
Definition scripted {T} (script : nat -> outcome T) : M T :=
  fun w => (script (invocations (trace w)), w).

(** An operation that fails on every invocation, with a message that tells
    the invocations apart, and reads the clock each time it runs. *)
Definition upstream_down : M Z :=
  fun w => (Thrown (ThrownError ("upstream answered 502 to call "
                                 +:+ toString (Z.of_nat (invocations (trace w))))),
            set_ticks (S (ticks w)) w).

(** [error.details] and [error.message] of a response body. *)
Definition error_details_of (r : Response) : option json :=
  match body r with
  | Some b => match get_field "error" b with
              | Some e => get_field "details" e
              | None => None
              end
  | None => None
  end.

Definition error_message_of (r : Response) : option json :=
  match body r with
  | Some b => match get_field "error" b with
              | Some e => get_field "message" e
              | None => None
              end
  | None => None
  end.

(** ** API utilities: bodies, strings and pages *)

(** [s.trim()]: white space is taken off both ends. *)
Fixpoint trim_start (s : string) : string :=
  match s with
  | EmptyString => EmptyString
  | String c rest => if is_space c then trim_start rest else s
  end.

Fixpoint trim_end (s : string) : string :=
  match s with
  | EmptyString => EmptyString
  | String c rest =>
      match trim_end rest with
      | EmptyString => if is_space c then EmptyString else String c EmptyString
      | kept => String c kept
      end
  end.

Definition trim (s : string) : string := trim_end (trim_start s).

(** [s.substring(0, n)]; a negative [n] counts as 0. *)
Fixpoint take (n : nat) (s : string) : string :=
  match n, s with
  | S k, String c rest => String c (take k rest)
  | _, _ => EmptyString
  end.

(** [s.replace(/[<>]/g, '')]. *)
Fixpoint strip_angle_brackets (s : string) : string :=
  match s with
  | EmptyString => EmptyString
  | String c rest =>
      if Ascii.eqb c "<" || Ascii.eqb c ">" then strip_angle_brackets rest
      else String c (strip_angle_brackets rest)
  end.

(** [sanitizeString(input, maxLength)]. *)
Definition sanitizeString (input : string) (maxLength : Z) : string :=
  strip_angle_brackets (take (Z.to_nat maxLength) (trim input)).

(** [isValidUUID(uuid)]. *)
Definition isValidUUID (uuid : string) : bool := test uuidRegex uuid.

(** The [validators] object of the API utilities: type guards on a parsed
    body.  Reading a property of [null] throws a [TypeError]. *)
Module api_validators.

(** [data.name] for a value whose [typeof] is 'object' and that is not
    [null]; arrays and dates have no such property. *)
Definition property (name : string) (data : json) : option json :=
  match data with
  | JObj fields => assoc name fields
  | _ => None
  end.

Definition null_read (name : string) : thrown :=
  ThrownError ("Cannot read properties of null (reading '" +:+ name +:+ "')").

Definition is_object (data : json) : bool :=
  String.eqb (validators.typeof (Some data)) "object".

(** [typeof v === 'string' && v.trim().length > 0 && v.length <= limit]. *)
Definition filled_string (v : option json) (limit : Z) : bool :=
  match v with
  | Some (JStr text) =>
      (0 <? Z.of_nat (String.length (trim text)))
      && (Z.of_nat (String.length text) <=? limit)
  | _ => false
  end.

(** [validators.chatMessage(data)]. *)
Definition chatMessage (data : json) : M bool :=
  if is_object data then
    match data with
    | JNull => throw (null_read "message")
    | _ =>
        ret (filled_string (property "message" data) 4000
             && match property "chatId" data with
                | None => true
                | Some v => String.eqb (validators.typeof (Some v)) "string"
                end)
    end
  else ret false.

(** [validators.createChat(data)]. *)
Definition createChat (data : json) : M bool :=
  if is_object data then
    match data with
    | JNull => throw (null_read "title")
    | _ => ret (filled_string (property "title" data) 100)
    end
  else ret false.

(** [validators.updateChat(data)]. *)
Definition updateChat (data : json) : M bool :=
  if is_object data then
    match data with
    | JNull => throw (null_read "title")
    | _ =>
        ret match property "title" data with
            | None => true
            | Some v => filled_string (Some v) 100
            end
    end
  else ret false.

End api_validators.

(** [parseRequestBody(request, validator)]; [request_json] is the call
    [request.json()], which throws on a body that is not JSON. *)
Definition parseRequestBody (request_json : M json)
    (validator : option (json -> M bool)) : M json :=
  try_catch
    (doM body <- request_json ;;
     match validator with
     | Some check =>
         doM ok <- check body ;;
         if negb ok then throw (ThrownError "Invalid request body format")
         else ret body
     | None => ret body
     end)
    (fun error => throw (ThrownError "Invalid JSON in request body")).

(** [parseInt(text) || fallback]: [parsed] is [parseInt(text)], [None] for
    [NaN]; [NaN] and 0 are falsy. *)
Definition parsed_or (parsed : option Z) (fallback : Z) : Z :=
  match parsed with
  | Some n => if n =? 0 then fallback else n
  | None => fallback
  end.

(** JavaScript numbers are IEEE doubles.  An integer of magnitude up to
    2^53 is a double; a larger one is rounded to 53 significant bits, to the
    nearest double and to the even one of two that are equally near.
    [round_magnitude a] is that double for [0 <= a]. *)
Definition round_magnitude (a : Z) : Z :=
  if a <=? 2 ^ 53 then a
  else
    let ulp := 2 ^ (Z.log2 a - 52) in
    let q := a / ulp in
    let r := a mod ulp in
    if 2 * r <? ulp then q * ulp
    else if ulp <? 2 * r then (q + 1) * ulp
    else if Z.even q then q * ulp else (q + 1) * ulp.

Definition to_double (z : Z) : Z := Z.sgn z * round_magnitude (Z.abs z).

(** The result of an arithmetic operation on integer-valued doubles; a
    zero stands for either signed zero, which [===] does not tell apart. *)
Inductive number : Type :=
| Num (z : Z)
| PosInfinity
| NegInfinity
| NaN.

(** The number an operation returns whose exact result is the integer [z]:
    the nearest double, an infinity from 2^1024 on. *)
Definition to_number (z : Z) : number :=
  let r := to_double z in
  if 2 ^ 1024 <=? Z.abs r then (if z <? 0 then NegInfinity else PosInfinity)
  else Num r.

(** [a * b] for a number [a] and an integer-valued double [b]. *)
Definition number_mul (a : number) (b : Z) : number :=
  match a with
  | Num x => to_number (x * b)
  | PosInfinity =>
      if b =? 0 then NaN else if b <? 0 then NegInfinity else PosInfinity
  | NegInfinity =>
      if b =? 0 then NaN else if b <? 0 then PosInfinity else NegInfinity
  | NaN => NaN
  end.

Definition number_nonneg (a : number) : Prop :=
  match a with
  | Num z => 0 <= z
  | PosInfinity => True
  | NegInfinity | NaN => False
  end.

Record Pagination : Type := mkPagination {
  page : Z;
  limit : Z;
  offset : number
}.

(** [getPaginationParams(request, defaultLimit, maxLimit)], from the two
    numbers [parseInt] reads off the query string; these and the two
    parameters are integer-valued doubles.  [Math.max] and [Math.min]
    select one of their arguments; the subtraction and the multiplication
    round. *)
Definition getPaginationParams (page_param limit_param : option Z)
    (defaultLimit maxLimit : Z) : Pagination :=
  let page0 := parsed_or page_param 1 in
  let limit0 := parsed_or limit_param defaultLimit in
  let page1 := Z.max 1 page0 in
  let limit1 := Z.min (Z.max 1 limit0) maxLimit in
  {| page := page1; limit := limit1;
     offset := number_mul (to_number (page1 - 1)) limit1 |}.

(** The strings [isValidUUID] is written to accept: five groups of
    hexadecimal digits of either case, 8-4-4-4-12, the third group starting
    with a version digit 1 to 5 and the fourth with 8, 9, a or b. *)
Definition uuid_template : list (ascii -> bool) :=
  (repeat is_hex_digit 8 ++ [Ascii.eqb "-"]
   ++ repeat is_hex_digit 4 ++ [Ascii.eqb "-"]
   ++ [one_to_five] ++ repeat is_hex_digit 3 ++ [Ascii.eqb "-"]
   ++ [is_variant_digit] ++ repeat is_hex_digit 3 ++ [Ascii.eqb "-"]
   ++ repeat is_hex_digit 12)%list.

(** The characters of a string, in order. *)
Definition chars (s : string) : list ascii := list_ascii_of_string s.

(** A limiter that gives back the admissions of successful requests, and a
    world in which the sample address has used two of its five. *)
Definition forgiving_config : RateLimitConfig :=
  {| windowMs := 60000; maxRequests := 5;
     skipSuccessfulRequests := true; skipFailedRequests := false;
     keyGenerator := defaultKeyGenerator; limit_message := "Slow down." |}.

Definition busy_world : World :=
  set_store {[ "rate_limit:203.0.113.7" := {| count := 2; resetTime := 30000 |} ]}
    initial_world.

(** [n] consecutive calls of the sliding window [check] for one request:
    the [allowed] flags in order and the map the last call leaves. *)
Fixpoint sliding_check_many (config : RateLimitConfig) (request : NextRequest)
    (n : nat) (requests : gmap string (list Z))
    : M (list bool * gmap string (list Z)) :=
  match n with
  | O => ret ([], requests)
  | S k =>
      doM r <- SlidingWindowRateLimiter.check config request requests ;;
      doM rest <- sliding_check_many config request k r.2 ;;
      ret (sw_allowed r.1 :: rest.1, rest.2)
  end.

(** The instants of the admitted calls of a run whose first call reads the
    clock at index [start]. *)
Fixpoint admissions (clk : nat -> Z) (start : nat) (flags : list bool) : list Z :=
  match flags with
  | [] => []
  | flag :: rest =>
      ((if flag then [clk start] else []) ++ admissions clk (S start) rest)%list
  end.

(** The timestamps recorded for a key, none when the key is absent. *)
Definition recorded_for (key : string) (requests : gmap string (list Z)) : list Z :=
  match requests !! key with Some l => l | None => [] end.

(** From the instant [bound] on, the recorded list and the history of
    admissions agree on what counts against a check. *)
Definition agree_from (window bound : Z) (recorded history : list Z) : Prop :=
  forall now, bound <= now ->
    List.filter (counts_against window now) recorded
    = List.filter (counts_against window now) history.

(** ** Error taxonomy and responder *)

Lemma includes_prefix pat text : String.prefix pat text = true -> includes pat text = true.
Proof. intros H. destruct text; cbn [includes]; rewrite H; reflexivity. Qed.

Lemma prefix_append pat rest : String.prefix pat (pat +:+ rest) = true.
Proof. induction pat as [|c pat IH]; simpl; [destruct rest; reflexivity|].
  rewrite IH. destruct (Ascii.ascii_dec c c); [reflexivity|contradiction]. Qed.

Lemma prefix_split pat text :
  String.prefix pat text = true -> exists rest, text = pat +:+ rest.
Proof.
  revert text. induction pat as [|c pat IH]; intros text H.
  - exists text. reflexivity.
  - destruct text as [|d text]; simpl in H; [discriminate|].
    destruct (Ascii.ascii_dec c d) as [->|]; [|discriminate].
    destruct (IH _ H) as [rest ->]. exists rest. reflexivity.
Qed.

(** [includes] is substring containment. *)
Lemma includes_spec pat text :
  includes pat text = true <-> exists before after, text = before +:+ pat +:+ after.
Proof.
  split.
  - induction text as [|c text IH]; cbn [includes].
    + destruct (String.prefix pat "") eqn:E; [|intros H; discriminate H]. intros _.
      destruct (prefix_split _ _ E) as [rest Hrest]. exists "", rest. exact Hrest.
    + destruct (String.prefix pat (String c text)) eqn:E.
      * intros _. destruct (prefix_split _ _ E) as [rest Hrest]. exists "", rest. exact Hrest.
      * intros H. destruct (IH H) as (b & a & ->). exists (String c b), a. reflexivity.
  - intros (before & after & ->). induction before as [|c before IH].
    + change ("" +:+ pat +:+ after) with (pat +:+ after).
      apply includes_prefix, prefix_append.
    + change (String c before +:+ pat +:+ after) with (String c (before +:+ pat +:+ after)).
      cbn [includes]. rewrite IH. destruct (String.prefix _ _); reflexivity.
Qed.

Lemma table_agrees (c : ErrorCode) : table_statuses c = [getStatusCodeFromErrorCode c].
Proof. destruct c; reflexivity. Qed.

(** C4. The kind-to-status mapping is a total function that gives every
    kind of the closed enumeration the one status of its row in the table
    of section 4.2, and [handleApiError] answers an [ApplicationError] of
    kind K with that status and the body
    [{ error: { code, message, details?, timestamp } }]. *)
Theorem typed_error_status_and_envelope :
  (forall c : ErrorCode, In c all_codes) /\
  (forall c : ErrorCode, table_statuses c = [getStatusCodeFromErrorCode c]) /\
  (forall (e : ApplicationError) (uid rid : option string) (w : World),
      exists r w',
        handleApiError (ThrownApplicationError e) uid rid w = (Returned r, w') /\
        table_statuses (code e) = [status r] /\
        body r = Some (JObj [("error",
                   JObj ([("code", JStr (code_string (code e)));
                          ("message", JStr (message e))]
                         ++ opt_field "details" (details e)
                         ++ [("timestamp", JDate (timestamp e))]))])).
Proof.
  split; [intros c; destruct c; cbn; tauto|].
  split; [exact table_agrees|].
  intros e uid rid w. eexists _, _. split; [reflexivity|].
  split; [apply table_agrees|reflexivity].
Qed.

(** The responder's answer to a network-looking message: the NETWORK_ERROR
    envelope with status 503. *)
Lemma handleApiError_network (msg : string) (uid rid : option string) (w : World) :
  includes "relation" msg && includes "does not exist" msg = false ->
  includes "timeout" msg || includes "ECONNREFUSED" msg = true ->
  handleApiError (ThrownError msg) uid rid w =
    (Returned (Response_json
                 (untyped_error_body NETWORK_ERROR
                    "Network connection failed. Please try again." (clock w (ticks w)))
                 503),
     set_ticks (S (ticks w))
       (set_trace (trace w ++ [EvConsoleError "API Error:" (Some (ThrownError msg))]) w)).
Proof.
  intros Hdb Hnet. unfold handleApiError, bind, console_error, emit. cbn [error_message].
  rewrite Hdb, Hnet. reflexivity.
Qed.

(** C5, as the code has it. An [Error] that is not an [ApplicationError],
    whose message contains "timeout" or "ECONNREFUSED" and does not
    contain both "relation" and "does not exist", is classified as
    NETWORK_ERROR instead of INTERNAL_SERVER_ERROR, and the response has
    status 503. *)
Theorem network_error_classified_503 (msg : string) (uid rid : option string) (w : World) :
  includes "timeout" msg || includes "ECONNREFUSED" msg = true ->
  includes "relation" msg && includes "does not exist" msg = false ->
  exists r w',
    handleApiError (ThrownError msg) uid rid w = (Returned r, w') /\
    error_code_of r = Some (JStr (code_string NETWORK_ERROR)) /\
    error_code_of r <> Some (JStr (code_string INTERNAL_SERVER_ERROR)) /\
    status r = 503.
Proof.
  intros Hnet Hdb. eexists _, _. split; [apply handleApiError_network; assumption|].
  repeat split. discriminate.
Qed.

Lemma network_error_classified_503_witness :
  exists r w',
    handleApiError (ThrownError "connect ECONNREFUSED 127.0.0.1:5432") None None
      initial_world = (Returned r, w') /\
    error_code_of r = Some (JStr (code_string NETWORK_ERROR)) /\
    error_code_of r <> Some (JStr (code_string INTERNAL_SERVER_ERROR)) /\
    status r = 503.
Proof.
  apply (network_error_classified_503 "connect ECONNREFUSED 127.0.0.1:5432");
    reflexivity.
Defined.

(** C5 as stated fails: "connect timeout" is answered with status 503, not
    the 500 of the table, and a message that also reads like a missing
    relation is classified as DATABASE_ERROR. *)
Lemma network_error_table_status_counterexample :
  ~ classified_as_network_with_table_status "connect timeout" initial_world /\
  ~ classified_as_network_with_table_status
      "relation users does not exist (statement timeout)" initial_world.
Proof.
  split; intros H.
  - destruct (H eq_refl) as (r & w' & Hrun & _ & Hst).
    rewrite handleApiError_network in Hrun by reflexivity.
    injection Hrun as <- _. discriminate Hst.
  - destruct (H eq_refl) as (r & w' & Hrun & Hcode & _).
    vm_compute in Hrun. injection Hrun as <- _. discriminate Hcode.
Qed.

(** ** Retry helper *)

Lemma retry_events_app (t1 t2 : list Event) :
  retry_events (t1 ++ t2) = (retry_events t1 ++ retry_events t2)%list.
Proof. apply List.filter_app. Qed.

Lemma invocations_retry_events (t : list Event) :
  invocations (retry_events t) = invocations t.
Proof.
  unfold invocations, retry_events. induction t as [|e t IH]; [reflexivity|].
  destruct e; cbn; rewrite ?IH; try reflexivity; cbn in IH; exact IH.
Qed.

Lemma sleeps_retry_events (t : list Event) : sleeps (retry_events t) = sleeps t.
Proof.
  unfold retry_events. induction t as [|e t IH]; [reflexivity|].
  destruct e; cbn; rewrite ?IH; reflexivity.
Qed.

Lemma invocations_app (t1 t2 : list Event) :
  invocations (t1 ++ t2) = (invocations t1 + invocations t2)%nat.
Proof. unfold invocations. rewrite List.filter_app, List.length_app. reflexivity. Qed.

Lemma sleeps_app (t1 t2 : list Event) : sleeps (t1 ++ t2) = (sleeps t1 ++ sleeps t2)%list.
Proof.
  induction t1 as [|e t1 IH]; [reflexivity|].
  destruct e; simpl; rewrite ?IH; reflexivity.
Qed.

Section RetryFacts.
Context {T : Type}.
Variable operation : M T.
Variables maxRetries delay : Z.
Hypothesis Hfails : always_fails operation.
Hypothesis Hquiet : unobserved operation.

(** With [n] further iterations left after this one, an operation that
    always fails is invoked [n + 1] times, each invocation started in the
    world the one before left, the helper sleeps between consecutive
    invocations, and what the last invocation threw is wrapped. *)
Lemma withRetry_loop_exhausts (n : nat) :
  forall (attempt : Z) (lastError : option thrown) (w : World),
    attempt + Z.of_nat n = maxRetries ->
    exists e t w1,
      failing_run operation delay attempt n w = Some (t, w1) /\
      withRetry_loop operation maxRetries delay (S n) attempt lastError w
        = (Thrown (ThrownApplicationError e), set_ticks (S (ticks w1)) w1) /\
      code e = EXTERNAL_API_ERROR /\
      message e = "Operation failed after " +:+ toString maxRetries
                  +:+ " attempts: " +:+ message_of (as_Error t) /\
      details e = Some (JObj [("attempts", JNum maxRetries);
                              ("lastError", JStr (message_of (as_Error t)))]) /\
      timestamp e = clock w1 (ticks w1) /\
      retry_events (trace (set_ticks (S (ticks w1)) w1))
      = (retry_events (trace w) ++ retry_schedule delay attempt n)%list.
Proof.
  induction n as [|k IH]; intros attempt lastError w Hn.
  - assert (attempt = maxRetries) as -> by lia.
    cbn [withRetry_loop failing_run]. rewrite Z.leb_refl, Z.eqb_refl.
    unfold try_catch, bind, emit. fold (invoked w).
    destruct (Hfails (invoked w)) as (t & w1 & Hop).
    pose proof (Hquiet (invoked w)) as Hq.
    rewrite Hop in Hq |- *. cbn [snd trace set_trace invoked] in Hq.
    rewrite retry_events_app in Hq.
    eexists _, t, w1. split; [reflexivity|]. split; [reflexivity|].
    repeat split. exact Hq.
  - cbn [withRetry_loop failing_run].
    replace (attempt <=? maxRetries) with true by (symmetry; apply Z.leb_le; lia).
    replace (attempt =? maxRetries) with false by (symmetry; apply Z.eqb_neq; lia).
    unfold try_catch at 1. unfold bind at 1 2. unfold emit at 1. fold (invoked w).
    destruct (Hfails (invoked w)) as (t & w1 & Hop).
    pose proof (Hquiet (invoked w)) as Hq.
    rewrite Hop in Hq |- *. cbn [snd trace set_trace invoked] in Hq.
    rewrite retry_events_app in Hq.
    unfold sleep, emit, bind. fold (slept (delay * 2 ^ (attempt - 1)) w1).
    destruct (IH (attempt + 1) (Some (as_Error t)) (slept (delay * 2 ^ (attempt - 1)) w1))
      as (e & t' & w' & Hchain & Hrun & Hc & Hm & Hd & Hts & Hev); [lia|].
    exists e, t', w'. split; [exact Hchain|]. split; [exact Hrun|].
    repeat split; try assumption.
    rewrite Hev. cbn [trace set_trace slept]. rewrite retry_events_app, Hq.
    cbn [retry_schedule]. rewrite <- !app_assoc. reflexivity.
Qed.
End RetryFacts.



(** ** Fixed window limiter *)

Section FixedWindow.
Variable config : RateLimitConfig.
Variable request : NextRequest.
Variable key : string.
Hypothesis Hkey : generates_key config request key.

(** One call of [check] in closed form. *)
Lemma check_step (w : World) :
  RateLimiter.check config request w =
    let m := swept (clock w (ticks w)) (store w) in
    let now := clock w (S (ticks w)) in
    let record := current_record config now (m !! key) in
    if count record <? maxRequests config then
      (Returned {| allowed := true;
                   remaining := Z.max 0 (maxRequests config - count record - 1);
                   cr_resetTime := resetTime record |},
       after_check (<[key := {| count := count record + 1;
                                resetTime := resetTime record |}]> m) w)
    else
      (Returned {| allowed := false;
                   remaining := Z.max 0 (maxRequests config - count record - 1);
                   cr_resetTime := resetTime record |},
       after_check m w).
Proof.
  unfold RateLimiter.check, cleanup, bind, Date_now, get_store, put_store, ret.
  cbn. rewrite Hkey. cbn. unfold current_record, swept.
  destruct (filter _ (store w) !! key) as [r|]; cbn;
    [destruct (expired _ r); cbn|];
    match goal with |- context [?a <? ?b] => destruct (a <? b) end; reflexivity.
Qed.

(** A record still in its window at both readings of a call is the one
    [check] works on. *)
Lemma current_record_live (w : World) (rec : RateLimitRecord) :
  store w !! key = Some rec ->
  clock w (ticks w) <= resetTime rec ->
  clock w (S (ticks w)) <= resetTime rec ->
  swept (clock w (ticks w)) (store w) !! key = Some rec /\
  current_record config (clock w (S (ticks w)))
    (swept (clock w (ticks w)) (store w) !! key) = rec.
Proof.
  intros Hrec H1 H2.
  assert (swept (clock w (ticks w)) (store w) !! key = Some rec) as Hs.
  { apply map_lookup_filter_Some. split; [exact Hrec|]. cbn. unfold expired.
    apply Z.ltb_ge. exact H1. }
  split; [exact Hs|]. rewrite Hs. unfold current_record, expired.
  replace (resetTime rec <? clock w (S (ticks w))) with false; [reflexivity|].
  symmetry. apply Z.ltb_ge. exact H2.
Qed.

(** No record, or one whose window is over when the call reads the
    clock: [check] starts a fresh window. *)
Lemma current_record_fresh (w : World) :
  (forall r, store w !! key = Some r -> resetTime r < clock w (S (ticks w))) ->
  current_record config (clock w (S (ticks w)))
    (swept (clock w (ticks w)) (store w) !! key)
  = {| count := 0; resetTime := clock w (S (ticks w)) + windowMs config |}.
Proof.
  intros Hold. unfold current_record.
  destruct (swept _ _ !! key) as [r|] eqn:Hs; [|reflexivity].
  apply map_lookup_filter_Some in Hs. destruct Hs as [Hr _].
  unfold expired. apply Hold in Hr.
  replace (resetTime r <? clock w (S (ticks w))) with true; [reflexivity|].
  symmetry. apply Z.ltb_lt. exact Hr.
Qed.

Lemma monotone_clock_le (w : World) (i j : nat) :
  monotone_clock w -> (i <= j)%nat -> clock w i <= clock w j.
Proof.
  intros Hmono Hij. induction j as [|j IH].
  - replace i with O by lia. lia.
  - destruct (Nat.eq_dec i (S j)) as [->|Hne]; [lia|].
    specialize (Hmono j). assert (clock w i <= clock w j) by (apply IH; lia). lia.
Qed.

(** A run of [n] calls that all fall inside the window of the stored
    record: the i-th call is admitted exactly while the count is below
    the limit, and rejected calls leave the record as it is. *)
Lemma check_many_in_window (n : nat) :
  forall (w : World) (rec : RateLimitRecord),
    monotone_clock w ->
    store w !! key = Some rec ->
    clock w (ticks w + 2 * n - 1) <= resetTime rec ->
    exists rs w',
      check_many config request n w = (Returned rs, w') /\
      length rs = n /\
      (forall (i : nat) res, rs !! i = Some res ->
         allowed res = (count rec + Z.of_nat i <? maxRequests config) /\
         cr_resetTime res = resetTime rec) /\
      store w' !! key =
        Some {| count := Z.max (count rec)
                           (Z.min (count rec + Z.of_nat n) (maxRequests config));
                resetTime := resetTime rec |} /\
      clock w' = clock w /\ ticks w' = (ticks w + 2 * n)%nat.
Proof.
  induction n as [|k IH]; intros w rec Hmono Hrec Hin.
  - exists [], w. split; [reflexivity|]. split; [reflexivity|].
    split; [|split; [|split; [reflexivity|lia]]].
    + intros i res Hi. rewrite lookup_nil in Hi. discriminate.
    + rewrite Hrec. destruct rec as [c r]. cbn. f_equal. f_equal. lia.
  - assert (clock w (ticks w) <= resetTime rec) as H1.
    { etransitivity; [|exact Hin]. apply monotone_clock_le; [exact Hmono|lia]. }
    assert (clock w (S (ticks w)) <= resetTime rec) as H2.
    { etransitivity; [|exact Hin]. apply monotone_clock_le; [exact Hmono|lia]. }
    destruct (current_record_live w rec Hrec H1 H2) as [Hs Hcur].
    cbn [check_many]. unfold bind at 1. rewrite check_step. cbv zeta.
    rewrite Hcur.
    destruct (count rec <? maxRequests config) eqn:Hlt.
    + apply Z.ltb_lt in Hlt.
      set (rec' := {| count := count rec + 1; resetTime := resetTime rec |}).
      set (w1 := after_check (<[key := rec']> _) w).
      destruct (IH w1 rec') as (rs & w' & Hrun & Hlen & Hall & Hst & Hck & Htk).
      * exact Hmono.
      * subst w1. cbn. apply lookup_insert_eq.
      * subst w1 rec'. cbn. etransitivity; [|exact Hin].
        apply monotone_clock_le; [exact Hmono|lia].
      * unfold bind. rewrite Hrun. eexists _, w'. split; [reflexivity|].
        split; [cbn; lia|]. split; [|split; [|split]].
        -- intros [|i] res Hi; cbn in Hi.
           ++ injection Hi as <-. cbn. split; [|reflexivity].
              symmetry. apply Z.ltb_lt. lia.
           ++ destruct (Hall i res Hi) as [Ha Hr]. subst rec'. cbn in Ha, Hr.
              split; [|exact Hr]. rewrite Ha. f_equal. lia.
        -- rewrite Hst. subst rec'. cbn. f_equal. f_equal. lia.
        -- rewrite Hck. reflexivity.
        -- rewrite Htk. subst w1. cbn. lia.
    + apply Z.ltb_ge in Hlt.
      set (w1 := after_check _ w).
      destruct (IH w1 rec) as (rs & w' & Hrun & Hlen & Hall & Hst & Hck & Htk).
      * exact Hmono.
      * subst w1. cbn. exact Hs.
      * subst w1. cbn. etransitivity; [|exact Hin].
        apply monotone_clock_le; [exact Hmono|lia].
      * unfold bind. rewrite Hrun. eexists _, w'. split; [reflexivity|].
        split; [cbn; lia|]. split; [|split; [|split]].
        -- intros [|i] res Hi; cbn in Hi.
           ++ injection Hi as <-. cbn. split; [|reflexivity].
              symmetry. apply Z.ltb_ge. lia.
           ++ destruct (Hall i res Hi) as [Ha Hr].
              split; [|exact Hr]. rewrite Ha.
              transitivity false; [apply Z.ltb_ge; lia|symmetry; apply Z.ltb_ge; lia].
        -- rewrite Hst. f_equal. f_equal. lia.
        -- rewrite Hck. reflexivity.
        -- rewrite Htk. subst w1. cbn. lia.
Qed.
(** A limiter without budget admits nothing. *)
Lemma check_without_budget (w : World) :
  maxRequests config <= 0 ->
  (forall r, store w !! key = Some r -> 0 <= count r) ->
  exists res,
    RateLimiter.check config request w
    = (Returned res, after_check (swept (clock w (ticks w)) (store w)) w) /\
    allowed res = false.
Proof.
  intros Hmax Hcount. rewrite check_step. cbv zeta.
  set (record := current_record config _ _).
  assert (0 <= count record) as Hrec.
  { subst record. unfold current_record.
    destruct (swept _ _ !! key) as [r|] eqn:Hs; [|cbn; lia].
    apply map_lookup_filter_Some in Hs. destruct Hs as [Hr _].
    destruct (expired _ r); [cbn; lia|apply Hcount; exact Hr]. }
  replace (count record <? maxRequests config) with false
    by (symmetry; apply Z.ltb_ge; lia).
  eexists. split; reflexivity.
Qed.
End FixedWindow.

(** C3. Every call of [check] reads the clock twice, for [cleanup] and for
    itself, so the k-th call of a run started in [w] works with the reading
    numbered [ticks w + 2 * k + 1].  A first call that finds no record in
    its window opens one that ends at [R = now + windowMs].  Of the [m + 1]
    calls read up to [R], exactly the first [maxRequests] are admitted (the
    stored count goes up by one with each), every later one is rejected
    and leaves the count at [maxRequests]; the first call read after [R]
    starts a fresh window from count 0, which its own admission raises to
    1. *)
Theorem fixed_window_exhaustion (config : RateLimitConfig) (request : NextRequest)
    (key : string) (w : World) (m : nat) :
  generates_key config request key ->
  monotone_clock w ->
  0 < maxRequests config ->
  (forall r, store w !! key = Some r -> resetTime r < clock w (S (ticks w))) ->
  clock w (ticks w + 2 * m + 1) <= clock w (S (ticks w)) + windowMs config ->
  clock w (S (ticks w)) + windowMs config < clock w (ticks w + 2 * m + 3) ->
  exists rs w1 next w2,
    check_many config request (S m) w = (Returned rs, w1) /\
    length rs = S m /\
    (forall (i : nat) res, rs !! i = Some res ->
       allowed res = (Z.of_nat i <? maxRequests config) /\
       cr_resetTime res = clock w (S (ticks w)) + windowMs config) /\
    store w1 !! key =
      Some {| count := Z.min (Z.of_nat (S m)) (maxRequests config);
              resetTime := clock w (S (ticks w)) + windowMs config |} /\
    RateLimiter.check config request w1 = (Returned next, w2) /\
    allowed next = true /\
    remaining next = Z.max 0 (maxRequests config - 0 - 1) /\
    cr_resetTime next = clock w (ticks w + 2 * m + 3) + windowMs config /\
    store w2 !! key =
      Some {| count := 0 + 1;
              resetTime := clock w (ticks w + 2 * m + 3) + windowMs config |}.
Proof.
  intros Hkey Hmono Hmax Hold Hin Hout.
  set (R := clock w (S (ticks w)) + windowMs config) in *.
  pose proof (current_record_fresh config key w Hold) as Hfresh. fold R in Hfresh.
  cbn [check_many]. unfold bind at 1.
  rewrite (check_step config request key Hkey). cbv zeta. rewrite Hfresh.
  cbn [count resetTime].
  replace (0 <? maxRequests config) with true by (symmetry; apply Z.ltb_lt; lia).
  set (rec1 := {| count := 0 + 1; resetTime := R |}).
  set (w0 := after_check (<[key := rec1]> _) w).
  destruct (check_many_in_window config request key Hkey m w0 rec1)
    as (rs & w1 & Hrun & Hlen & Hall & Hst & Hck & Htk).
  { exact Hmono. }
  { subst w0. cbn. apply lookup_insert_eq. }
  { subst w0 rec1. cbn.
    match goal with
    | |- clock w ?a <= _ => replace a with (ticks w + 2 * m + 1)%nat by lia
    end. exact Hin. }
  assert (ticks w1 = (ticks w + 2 * m + 2)%nat) as Htk'.
  { rewrite Htk. subst w0. cbn. lia. }
  assert (forall r, store w1 !! key = Some r -> resetTime r < clock w1 (S (ticks w1)))
    as Hold1.
  { intros r Hr. rewrite Hst in Hr. injection Hr as <-. cbn.
    rewrite Hck, Htk'. subst w0. cbn.
    match goal with
    | |- _ < clock w ?a => replace a with (ticks w + 2 * m + 3)%nat by lia
    end. exact Hout. }
  pose proof (current_record_fresh config key w1 Hold1) as Hfresh1.
  pose proof (check_step config request key Hkey w1) as Hstep1.
  cbv zeta in Hstep1. rewrite Hfresh1 in Hstep1. cbn [count resetTime] in Hstep1.
  replace (0 <? maxRequests config) with true in Hstep1
    by (symmetry; apply Z.ltb_lt; lia).
  assert (clock w1 (S (ticks w1)) = clock w (ticks w + 2 * m + 3)%nat) as Hnow.
  { rewrite Hck, Htk'. subst w0. cbn. f_equal. lia. }
  unfold bind. rewrite Hrun.
  eexists _, w1, _, _. split; [reflexivity|].
  split; [cbn; lia|]. split; [|split; [|split; [exact Hstep1|]]].
  - intros [|i] res Hi; cbn in Hi.
    + injection Hi as <-. cbn. split; [|reflexivity].
      symmetry. apply Z.ltb_lt. lia.
    + destruct (Hall i res Hi) as [Ha Hr]. subst rec1. cbn in Ha, Hr.
      split; [|exact Hr]. rewrite Ha. f_equal. lia.
  - rewrite Hst. subst rec1. cbn [count resetTime]. f_equal. f_equal. lia.
  - cbn [allowed remaining cr_resetTime]. rewrite Hnow.
    split; [reflexivity|]. split; [reflexivity|]. split; [reflexivity|].
    cbn. apply lookup_insert_eq.
Qed.

Lemma fixed_window_exhaustion_witness :
  exists rs w1 next w2,
    check_many (default_config 60000 3) sample_request 5 idle_gap_world
      = (Returned rs, w1) /\
    length rs = 5%nat /\
    (forall (i : nat) res, rs !! i = Some res ->
       allowed res = (Z.of_nat i <? 3) /\ cr_resetTime res = 61000) /\
    store w1 !! "rate_limit:203.0.113.7" = Some {| count := 3; resetTime := 61000 |} /\
    RateLimiter.check (default_config 60000 3) sample_request w1 = (Returned next, w2) /\
    allowed next = true /\
    remaining next = 2 /\
    cr_resetTime next = 671000 /\
    store w2 !! "rate_limit:203.0.113.7" = Some {| count := 1; resetTime := 671000 |}.
Proof.
  apply (fixed_window_exhaustion (default_config 60000 3) sample_request
           "rate_limit:203.0.113.7" idle_gap_world 4).
  - intros w. reflexivity.
  - intros i. unfold idle_gap_world. cbn [clock].
    destruct (Nat.ltb_spec i 10); destruct (Nat.ltb_spec (S i) 10); lia.
  - reflexivity.
  - intros r Hr. cbn [store idle_gap_world] in Hr. rewrite lookup_empty in Hr.
    discriminate Hr.
  - vm_compute. discriminate.
  - vm_compute. reflexivity.
Defined.

(** ** Sliding window limiter *)

Lemma sliding_filter_counts (window now : Z) (l : list Z) :
  List.filter (fun timestamp => now - window <? timestamp) l
  = List.filter (counts_against window now) l.
Proof.
  apply List.filter_ext. intros a. unfold counts_against.
  destruct (Z.ltb_spec (now - window) a); destruct (Z.ltb_spec (now - a) window);
    (reflexivity || lia).
Qed.

(** C7. Of the admissions recorded for the key, a check at [now] counts
    exactly those with [now - t < windowMs]; it is admitted exactly when
    fewer than [maxRequests] of them count, and an admitted check stores
    the counted admissions followed by [now]. *)
Theorem sliding_window_check (config : RateLimitConfig) (request : NextRequest)
    (key : string) (requests : gmap string (list Z)) (w : World) :
  generates_key config request key ->
  let now := clock w (ticks w) in
  let recorded := match requests !! key with Some l => l | None => [] end in
  let counted := List.filter (counts_against (windowMs config) now) recorded in
  exists res requests' w',
    SlidingWindowRateLimiter.check config request requests w
      = (Returned (res, requests'), w') /\
    (forall t, In t counted <-> In t recorded /\ now - t < windowMs config) /\
    (sw_allowed res = true <-> Z.of_nat (length counted) < maxRequests config) /\
    (sw_allowed res = true -> requests' = <[key := (counted ++ [now])%list]> requests) /\
    (sw_allowed res = false -> requests' = requests).
Proof.
  intros Hkey now recorded counted.
  unfold SlidingWindowRateLimiter.check, bind, Date_now, ret. rewrite Hkey. cbn.
  fold now. fold recorded. rewrite sliding_filter_counts. fold counted.
  assert (forall t, In t counted <-> In t recorded /\ now - t < windowMs config) as Hcnt.
  { intros t. subst counted. rewrite List.filter_In. unfold counts_against.
    rewrite Z.ltb_lt. reflexivity. }
  destruct (Z.ltb_spec (Z.of_nat (length counted)) (maxRequests config)) as [Hlt|Hge].
  - eexists _, _, _. split; [reflexivity|]. split; [exact Hcnt|]. cbn.
    split; [tauto|]. split; [reflexivity|discriminate].
  - eexists _, _, _. split; [reflexivity|]. split; [exact Hcnt|]. cbn.
    split; [split; [discriminate|lia]|]. split; [discriminate|reflexivity].
Qed.

Lemma sliding_window_check_witness :
  exists res requests' w',
    SlidingWindowRateLimiter.check (default_config 60000 3) sample_request
      {[ "rate_limit:203.0.113.7" := [-70000; -50000; -100] ]} initial_world
      = (Returned (res, requests'), w') /\
    (forall t, In t [-50000; -100] <->
               In t [-70000; -50000; -100] /\ 0 - t < 60000) /\
    (sw_allowed res = true <-> Z.of_nat (length [-50000; -100]) < 3) /\
    (sw_allowed res = true ->
       requests' = <["rate_limit:203.0.113.7" := [-50000; -100; 0]]>
                     {[ "rate_limit:203.0.113.7" := [-70000; -50000; -100] ]}) /\
    (sw_allowed res = false ->
       requests' = {[ "rate_limit:203.0.113.7" := [-70000; -50000; -100] ]}).
Proof.
  pose proof (sliding_window_check (default_config 60000 3) sample_request
                "rate_limit:203.0.113.7"
                {[ "rate_limit:203.0.113.7" := [-70000; -50000; -100] ]} initial_world
                (fun w => eq_refl)) as H.
  cbv zeta in H. rewrite lookup_singleton_eq in H. exact H.
Defined.

(** ** The matcher decides the language of a regular expression *)

(** Expose the first step of an append whose left operand is known. *)
Ltac step_append H := unfold String.append in H; fold String.append in H.

Lemma append_empty_inv (s1 s2 : string) : s1 +:+ s2 = "" -> s1 = "" /\ s2 = "".
Proof. destruct s1; cbn; [auto|discriminate]. Qed.

Lemma lang_cat_inv (r1 r2 : regex) (s : string) :
  lang (Cat r1 r2) s -> exists s1 s2, s = s1 +:+ s2 /\ lang r1 s1 /\ lang r2 s2.
Proof. intros H. inversion H; subst. eauto. Qed.

Lemma lang_alt_inv (r1 r2 : regex) (s : string) :
  lang (Alt r1 r2) s -> lang r1 s \/ lang r2 s.
Proof. intros H. inversion H; subst; auto. Qed.

Lemma lang_class_inv (p : ascii -> bool) (s : string) :
  lang (Class p) s -> exists c, s = String c "" /\ p c = true.
Proof. intros H. inversion H; subst. eauto. Qed.

Lemma lang_star_cons (r : regex) (c : ascii) (s : string) :
  lang (Star r) (String c s) ->
  exists s1 s2, s = s1 +:+ s2 /\ lang r (String c s1) /\ lang (Star r) s2.
Proof.
  intros H. remember (Star r) as r' eqn:Hr. remember (String c s) as s' eqn:Hs.
  induction H as [| | | | | |r0 s1 s2 H1 _ H2 IH2]; try discriminate.
  injection Hr as ->. destruct s1 as [|a s1].
  - apply IH2; [reflexivity|exact Hs].
  - step_append Hs. injection Hs as Ha Hs'. subst a s. eauto.
Qed.

Lemma nullable_lang (r : regex) : nullable r = true <-> lang r "".
Proof.
  induction r as [| |p|r1 IH1 r2 IH2|r1 IH1 r2 IH2|r IH]; cbn; split; intros H.
  - discriminate.
  - inversion H.
  - constructor.
  - reflexivity.
  - discriminate.
  - inversion H.
  - apply andb_prop in H. destruct H as [H1 H2].
    change "" with ("" +:+ ""). constructor; [apply IH1|apply IH2]; assumption.
  - apply lang_cat_inv in H. destruct H as (s1 & s2 & Hs & H1 & H2).
    symmetry in Hs. apply append_empty_inv in Hs. destruct Hs as [-> ->].
    apply andb_true_intro. split; [apply IH1|apply IH2]; assumption.
  - apply orb_prop in H. destruct H as [H|H];
      [apply lang_alt_l, IH1|apply lang_alt_r, IH2]; exact H.
  - apply lang_alt_inv in H. apply orb_true_intro.
    destruct H as [H|H]; [left; apply IH1|right; apply IH2]; exact H.
  - constructor.
  - reflexivity.
Qed.

Lemma deriv_lang (r : regex) :
  forall (c : ascii) (s : string), lang (deriv c r) s <-> lang r (String c s).
Proof.
  induction r as [| |p|r1 IH1 r2 IH2|r1 IH1 r2 IH2|r IH]; intros c s; cbn [deriv].
  - split; intros H; inversion H.
  - split; intros H; inversion H.
  - destruct (p c) eqn:Hp; split; intros H.
    + inversion H; subst. constructor. exact Hp.
    + inversion H; subst. constructor.
    + inversion H.
    + inversion H; subst. congruence.
  - assert (forall t, lang (Cat (deriv c r1) r2) t -> lang (Cat r1 r2) (String c t)) as Hfwd.
    { intros t H. apply lang_cat_inv in H. destruct H as (s1 & s2 & -> & H1 & H2).
      change (String c (s1 +:+ s2)) with (String c s1 +:+ s2).
      constructor; [apply IH1; exact H1|exact H2]. }
    destruct (nullable r1) eqn:Hn; split; intros H.
    + apply lang_alt_inv in H. destruct H as [H|H]; [apply Hfwd; exact H|].
      change (String c s) with ("" +:+ String c s).
      constructor; [apply nullable_lang; exact Hn|apply IH2; exact H].
    + apply lang_cat_inv in H. destruct H as (s1 & s2 & Hs & H1 & H2).
      destruct s1 as [|a s1]; step_append Hs.
      * subst s2. apply lang_alt_r, IH2. exact H2.
      * injection Hs as Ha Hs'. subst a s. apply lang_alt_l.
        constructor; [apply IH1; exact H1|exact H2].
    + apply Hfwd. exact H.
    + apply lang_cat_inv in H. destruct H as (s1 & s2 & Hs & H1 & H2).
      destruct s1 as [|a s1]; step_append Hs.
      * apply nullable_lang in H1. congruence.
      * injection Hs as Ha Hs'. subst a s. constructor; [apply IH1; exact H1|exact H2].
  - split; intros H.
    + apply lang_alt_inv in H.
      destruct H as [H|H]; [apply lang_alt_l, IH1|apply lang_alt_r, IH2]; exact H.
    + apply lang_alt_inv in H.
      destruct H as [H|H]; [apply lang_alt_l, IH1|apply lang_alt_r, IH2]; exact H.
  - split; intros H.
    + apply lang_cat_inv in H. destruct H as (s1 & s2 & -> & H1 & H2).
      change (String c (s1 +:+ s2)) with (String c s1 +:+ s2).
      constructor; [apply IH; exact H1|exact H2].
    + apply lang_star_cons in H. destruct H as (s1 & s2 & -> & H1 & H2).
      constructor; [apply IH; exact H1|exact H2].
Qed.

(** [test] accepts exactly the words of the expression. *)
Lemma test_lang (s : string) : forall r : regex, test r s = true <-> lang r s.
Proof.
  induction s as [|c s IH]; intros r; cbn [test].
  - apply nullable_lang.
  - rewrite IH. apply deriv_lang.
Qed.

(** ** Validators *)

Lemma hex_digit_in_class (c : ascii) :
  is_hex_digit c = true -> ignore_case hex_lower c = true.
Proof.
  destruct c as [[] [] [] [] [] [] [] []]; vm_compute; intros H;
    first [reflexivity | discriminate H].
Qed.

Lemma dash_in_class (c : ascii) :
  Ascii.eqb "-" c = true -> ignore_case (Ascii.eqb "-") c = true.
Proof.
  destruct c as [[] [] [] [] [] [] [] []]; vm_compute; intros H;
    first [reflexivity | discriminate H].
Qed.

Lemma version_four_in_class (c : ascii) :
  Ascii.eqb "4" c = true -> ignore_case one_to_five c = true.
Proof.
  destruct c as [[] [] [] [] [] [] [] []]; vm_compute; intros H;
    first [reflexivity | discriminate H].
Qed.

Lemma variant_digit_in_class (c : ascii) :
  is_variant_digit c = true -> ignore_case variant_lower c = true.
Proof.
  destruct c as [[] [] [] [] [] [] [] []]; vm_compute; intros H;
    first [reflexivity | discriminate H].
Qed.

Lemma fits_app (ps1 ps2 : list (ascii -> bool)) :
  forall s, fits (ps1 ++ ps2) s = true ->
            exists s1 s2, s = s1 +:+ s2 /\ fits ps1 s1 = true /\ fits ps2 s2 = true.
Proof.
  induction ps1 as [|p ps1 IH]; intros s H.
  - exists "", s. repeat split. exact H.
  - destruct s as [|c s]; cbn in H; [discriminate|].
    apply andb_prop in H. destruct H as [Hp H].
    destruct (IH s H) as (s1 & s2 & -> & H1 & H2).
    exists (String c s1), s2. repeat split; [|exact H2].
    cbn. rewrite Hp, H1. reflexivity.
Qed.

Lemma fits_cat (r1 r2 : regex) (ps1 ps2 : list (ascii -> bool)) :
  (forall t, fits ps1 t = true -> lang r1 t) ->
  (forall t, fits ps2 t = true -> lang r2 t) ->
  forall s, fits (ps1 ++ ps2) s = true -> lang (Cat r1 r2) s.
Proof.
  intros H1 H2 s H. apply fits_app in H. destruct H as (s1 & s2 & -> & F1 & F2).
  constructor; [apply H1|apply H2]; assumption.
Qed.

Lemma fits_single (q p : ascii -> bool) :
  (forall c, q c = true -> p c = true) ->
  forall s, fits [q] s = true -> lang (Class p) s.
Proof.
  intros Hqp s H. destruct s as [|c [|d s]]; cbn in H; try discriminate.
  - constructor. apply Hqp. destruct (q c); [reflexivity|discriminate].
  - destruct (q c); discriminate.
Qed.

Lemma fits_repeat (q p : ascii -> bool) (n : nat) :
  (forall c, q c = true -> p c = true) ->
  forall s, fits (repeat q n) s = true -> lang (Repeat n (Class p)) s.
Proof.
  intros Hqp. induction n as [|n IH]; intros s H; cbn in *.
  - destruct s; [constructor|discriminate].
  - destruct s as [|c s]; [discriminate|].
    apply andb_prop in H. destruct H as [Hc H].
    change (String c s) with (String c "" +:+ s).
    constructor; [constructor; apply Hqp; exact Hc|apply IH; exact H].
Qed.

(** Every version 4 UUID in textual form passes the pattern of the
    validator. *)
Lemma uuid_v4_accepted (s : string) : is_uuid_v4 s = true -> test uuidRegex s = true.
Proof.
  intros H. apply test_lang. revert s H.
  unfold is_uuid_v4, uuid_v4_template, uuidRegex. cbv zeta.
  repeat (apply fits_cat;
          [first [apply fits_repeat; exact hex_digit_in_class
                 |apply fits_single; exact dash_in_class
                 |apply fits_single; exact version_four_in_class
                 |apply fits_single; exact variant_digit_in_class]|]).
  apply fits_repeat. exact hex_digit_in_class.
Qed.

Lemma email_outcome (value : string) (fieldName : option string) (w : World) :
  validators.email value fieldName w = (Returned tt, w) \/
  exists e w',
    validators.email value fieldName w = (Thrown (ThrownApplicationError e), w') /\
    validation_failure e (match fieldName with Some f => f | None => "email" end).
Proof.
  unfold validators.email. destruct (test emailRegex value); cbn [negb].
  - left. reflexivity.
  - right. eexists _, _. split; [reflexivity|]. split; [reflexivity|].
    cbn. reflexivity.
Qed.

Lemma uuid_outcome (value fieldName : string) (w : World) :
  validators.uuid value fieldName w = (Returned tt, w) \/
  exists e w',
    validators.uuid value fieldName w = (Thrown (ThrownApplicationError e), w') /\
    validation_failure e fieldName.
Proof.
  unfold validators.uuid. destruct (test uuidRegex value); cbn [negb].
  - left. reflexivity.
  - right. eexists _, _. split; [reflexivity|]. split; [reflexivity|].
    cbn. reflexivity.
Qed.

(** C8. [email] returns normally on "a@b.co" and raises on
    "not-an-email"; [uuid] returns normally on every version 4 UUID and
    raises on "1234"; whenever either validator raises, the error is of the
    ValidationError family and its details carry the field name, and a
    validator that succeeds returns no value and changes nothing. *)
Theorem validators_email_uuid :
  (forall fieldName w, validators.email "a@b.co" fieldName w = (Returned tt, w)) /\
  (forall fieldName w, exists e w',
      validators.email "not-an-email" fieldName w
        = (Thrown (ThrownApplicationError e), w') /\
      validation_failure e (match fieldName with Some f => f | None => "email" end)) /\
  (forall value fieldName w,
      is_uuid_v4 value = true -> validators.uuid value fieldName w = (Returned tt, w)) /\
  (forall fieldName w, exists e w',
      validators.uuid "1234" fieldName w = (Thrown (ThrownApplicationError e), w') /\
      validation_failure e fieldName) /\
  (forall value fieldName w,
      validators.email value fieldName w = (Returned tt, w) \/
      exists e w',
        validators.email value fieldName w = (Thrown (ThrownApplicationError e), w') /\
        validation_failure e (match fieldName with Some f => f | None => "email" end)) /\
  (forall value fieldName w,
      validators.uuid value fieldName w = (Returned tt, w) \/
      exists e w',
        validators.uuid value fieldName w = (Thrown (ThrownApplicationError e), w') /\
        validation_failure e fieldName).
Proof.
  split; [|split; [|split; [|split; [|split]]]].
  - intros fieldName w. reflexivity.
  - intros fieldName w. destruct (email_outcome "not-an-email" fieldName w) as [H|H];
      [discriminate H|exact H].
  - intros value fieldName w H. unfold validators.uuid.
    rewrite (uuid_v4_accepted value H). reflexivity.
  - intros fieldName w. destruct (uuid_outcome "1234" fieldName w) as [H|H];
      [discriminate H|exact H].
  - exact email_outcome.
  - exact uuid_outcome.
Qed.

Lemma validators_email_uuid_witness :
  validators.uuid "f47ac10b-58cc-4372-a567-0e02b2c3d479" "chatId" initial_world
  = (Returned tt, initial_world).
Proof.
  apply (proj1 (proj2 (proj2 validators_email_uuid))). reflexivity.
Defined.

(** ** Request handler wrapper *)

Lemma createApiHandler_unfold (handler : DomainHandler) (options : ApiHandlerOptions)
    (request : NextRequest) (context : option json) (w : World) :
  createApiHandler handler options request context w
  = try_catch (api_handler_try handler options request context)
      (api_handler_catch (request_id_of w)) (after_request_id w).
Proof. reflexivity. Qed.

Lemma api_handler_try_stages (handler : DomainHandler) (options : ApiHandlerOptions)
    (request : NextRequest) (context : option json) :
  api_handler_try handler options request context
  = (seqM method_stage options request ;;
     doM rateLimitResponse <- limiter_stage options request ;;
     match rateLimitResponse with
     | Some r => ret r
     | None => doM u <- auth_stage options request ;;
               handler_stage handler request context u
     end).
Proof. reflexivity. Qed.

Lemma no_handler_since_refl (w : World) : no_handler_since w w.
Proof. exists []. split; [symmetry; apply app_nil_r|reflexivity]. Qed.

Lemma no_handler_since_trans (w1 w2 w3 : World) :
  no_handler_since w1 w2 -> no_handler_since w2 w3 -> no_handler_since w1 w3.
Proof.
  intros (a1 & H1 & N1) (a2 & H2 & N2). exists (a1 ++ a2)%list.
  split; [rewrite H2, H1, app_assoc; reflexivity|].
  rewrite existsb_app, N1, N2. reflexivity.
Qed.

(** Identity resolution without an identity answers [null]. *)
Lemma getAuthenticatedUser_none (request : NextRequest) (w : World) :
  no_identity w ->
  exists w', getAuthenticatedUser request w = (Returned None, w') /\
             clock w' = clock w /\ ticks w' = ticks w /\ no_handler_since w w'.
Proof.
  unfold no_identity, getAuthenticatedUser, try_catch, bind, getServerSession.
  intros H. destruct (session w) as [[s|]|t] eqn:Hs; cbn.
  - rewrite H. eexists. split; [reflexivity|]. repeat split.
    eexists. split; [reflexivity|reflexivity].
  - eexists. split; [reflexivity|]. repeat split.
    eexists. split; [reflexivity|reflexivity].
  - eexists. split; [reflexivity|]. repeat split.
    exists [EvSessionLookup;
            EvConsoleError "Error getting authenticated user:" (Some t)].
    split; [cbn; rewrite <- app_assoc; reflexivity|reflexivity].
Qed.

(** [requireAuth] without an identity throws the 401 response. *)
Lemma requireAuth_unauthorized (request : NextRequest) (w : World) :
  no_identity w ->
  exists r w',
    requireAuth request w = (Thrown (ThrownResponse r), w') /\
    status r = 401 /\
    error_code_of r = Some (JStr "UNAUTHORIZED") /\
    no_handler_since w w'.
Proof.
  intros H. destruct (getAuthenticatedUser_none request w H) as (w1 & Hrun & _ & _ & Hn).
  unfold requireAuth, bind. rewrite Hrun. cbn.
  eexists _, _. split; [reflexivity|]. repeat split. exact Hn.
Qed.

Lemma method_stage_pass (options : ApiHandlerOptions) (request : NextRequest) (w : World) :
  method_permitted options request = true ->
  method_stage options request w = (Returned tt, w).
Proof.
  unfold method_permitted, method_stage, validateMethod.
  destruct (opt_allowedMethods options) as [l|]; [|reflexivity].
  intros ->. reflexivity.
Qed.

(** The [try] block up to identity resolution, for a request that passes
    the method check and that the rate limiter (if any) lets through. *)
Lemma try_block_to_auth (handler : DomainHandler) (options : ApiHandlerOptions)
    (request : NextRequest) (context : option json) (rid : string) (w0 w1 : World) :
  method_permitted options request = true ->
  limiter_stage options request w0 = (Returned None, w1) ->
  try_catch (api_handler_try handler options request context) (api_handler_catch rid) w0
  = try_catch (doM u <- auth_stage options request ;;
               handler_stage handler request context u)
      (api_handler_catch rid) w1.
Proof.
  intros Hm Hl. rewrite api_handler_try_stages.
  unfold try_catch, bind at 1 2. rewrite (method_stage_pass _ _ _ Hm), Hl. reflexivity.
Qed.

Lemma createApiHandler_to_auth (handler : DomainHandler) (options : ApiHandlerOptions)
    (request : NextRequest) (context : option json) (w w1 : World) :
  method_permitted options request = true ->
  limiter_stage options request (after_request_id w) = (Returned None, w1) ->
  createApiHandler handler options request context w
  = try_catch (doM u <- auth_stage options request ;;
               handler_stage handler request context u)
      (api_handler_catch (request_id_of w)) w1.
Proof.
  intros Hm Hl. rewrite createApiHandler_unfold. apply try_block_to_auth; assumption.
Qed.

Lemma method_stage_world (options : ApiHandlerOptions) (request : NextRequest)
    (w0 wa : World) (u : unit) :
  method_stage options request w0 = (Returned u, wa) -> wa = w0.
Proof.
  unfold method_stage, validateMethod. intros Hm.
  destruct (opt_allowedMethods options) as [l|]; [|injection Hm as _ <-; reflexivity].
  destruct (negb _); [discriminate Hm|injection Hm as _ <-; reflexivity].
Qed.

(** The wrapper as a function of what its first two steps answer. *)
Lemma createApiHandler_stages (handler : DomainHandler) (options : ApiHandlerOptions)
    (request : NextRequest) (context : option json) (w : World) :
  createApiHandler handler options request context w
  = match method_stage options request (after_request_id w) with
    | (Returned _, wa) =>
        match limiter_stage options request wa with
        | (Returned (Some r), wb) => (Returned r, wb)
        | (Returned None, wb) =>
            try_catch (doM u <- auth_stage options request ;;
                       handler_stage handler request context u)
              (api_handler_catch (request_id_of w)) wb
        | (Thrown t, wb) => api_handler_catch (request_id_of w) t wb
        end
    | (Thrown t, wa) => api_handler_catch (request_id_of w) t wa
    end.
Proof.
  rewrite createApiHandler_unfold, api_handler_try_stages.
  unfold try_catch, bind at 1 2.
  destruct (method_stage options request (after_request_id w)) as [[u|t] wa];
    [|reflexivity].
  destruct (limiter_stage options request wa) as [[[r|]|t] wb]; reflexivity.
Qed.

(** When [requireAuth] throws its response, the rest of the [try] block is
    skipped and the [catch] block returns that response. *)
Lemma auth_failure_skips_handler (handler : DomainHandler) (options : ApiHandlerOptions)
    (request : NextRequest) (context : option json) (rid : string)
    (w1 w2 : World) (r : Response) :
  opt_requireAuth options = Some true ->
  requireAuth request w1 = (Thrown (ThrownResponse r), w2) ->
  try_catch (doM u <- auth_stage options request ;;
             handler_stage handler request context u)
    (api_handler_catch rid) w1
  = (Returned r, logged ("API Error [" +:+ rid +:+ "]:") (ThrownResponse r) w2).
Proof.
  intros Hauth Hrun. unfold try_catch, bind at 1, auth_stage. rewrite Hauth.
  unfold bind at 1. rewrite Hrun. reflexivity.
Qed.

(** C9. With [requireAuth] set and a session state that holds no identity
    when the wrapper comes to resolve it, the domain handler is never
    invoked: the run is the same for every handler, whatever the method
    check and the rate limiter answer.  A request that reaches identity
    resolution (method permitted, rate limiter absent or answering [null])
    is answered with the 401 response whose [error.code] is "UNAUTHORIZED",
    and the trace gains no handler call. *)
Theorem unauthenticated_request_rejected (handler : DomainHandler)
    (options : ApiHandlerOptions) (request : NextRequest) (context : option json)
    (w : World) :
  opt_requireAuth options = Some true ->
  (forall w1, limiter_stage options request (after_request_id w) = (Returned None, w1) ->
              no_identity w1) ->
  (forall handler' : DomainHandler,
      createApiHandler handler' options request context w
      = createApiHandler handler options request context w) /\
  (forall w1,
      method_permitted options request = true ->
      limiter_stage options request (after_request_id w) = (Returned None, w1) ->
      exists r w',
        createApiHandler handler options request context w = (Returned r, w') /\
        status r = 401 /\
        error_code_of r = Some (JStr "UNAUTHORIZED") /\
        no_handler_since w1 w').
Proof.
  intros Hauth Hnone. split.
  - intros h. rewrite !createApiHandler_stages.
    destruct (method_stage options request (after_request_id w)) as [[u|t] wa] eqn:Hm;
      [|reflexivity].
    apply method_stage_world in Hm. subst wa.
    destruct (limiter_stage options request (after_request_id w)) as [[[r|]|t] wb] eqn:Hl;
      [reflexivity| |reflexivity].
    destruct (requireAuth_unauthorized request wb (Hnone wb eq_refl))
      as (r & w2 & Hrun & _).
    rewrite !(auth_failure_skips_handler _ options request context _ wb w2 r Hauth Hrun).
    reflexivity.
  - intros w1 Hm Hl.
    destruct (requireAuth_unauthorized request w1 (Hnone w1 Hl))
      as (r & w2 & Hrun & Hst & Hcode & Hs).
    rewrite (createApiHandler_to_auth handler options request context w w1 Hm Hl).
    rewrite (auth_failure_skips_handler _ options request context _ w1 w2 r Hauth Hrun).
    eexists _, _. split; [reflexivity|]. split; [exact Hst|]. split; [exact Hcode|].
    eapply no_handler_since_trans; [exact Hs|].
    eexists. split; [reflexivity|reflexivity].
Qed.

Lemma unauthenticated_request_rejected_witness :
  (forall handler' : DomainHandler,
      createApiHandler handler'
        {| opt_requireAuth := Some true; opt_allowedMethods := Some ["GET"; "POST"];
           opt_rateLimiter := None |}
        sample_request None initial_world
      = createApiHandler created_handler
          {| opt_requireAuth := Some true; opt_allowedMethods := Some ["GET"; "POST"];
             opt_rateLimiter := None |}
          sample_request None initial_world) /\
  exists r w',
    createApiHandler created_handler
      {| opt_requireAuth := Some true; opt_allowedMethods := Some ["GET"; "POST"];
         opt_rateLimiter := None |}
      sample_request None initial_world = (Returned r, w') /\
    status r = 401 /\
    error_code_of r = Some (JStr "UNAUTHORIZED") /\
    no_handler_since (after_request_id initial_world) w'.
Proof.
  destruct (unauthenticated_request_rejected created_handler
              {| opt_requireAuth := Some true; opt_allowedMethods := Some ["GET"; "POST"];
                 opt_rateLimiter := None |}
              sample_request None initial_world eq_refl)
    as [Hsame Hreached].
  - intros w1 Hl. injection Hl as <-. exact I.
  - split; [exact Hsame|].
    apply (Hreached (after_request_id initial_world)); reflexivity.
Defined.

(** C2, as the code has it. A typed error thrown by the domain handler is
    answered by the wrapper's own [catch] block: status 500, code
    INTERNAL_SERVER_ERROR, the error's message, and the request id as
    details. *)
Theorem typed_error_answered_as_internal (handler : DomainHandler)
    (options : ApiHandlerOptions) (request : NextRequest) (context : option json)
    (w w1 w2 : World) (u : option User) (e : ApplicationError) :
  reaches_handler options request w w1 u ->
  handler_stage handler request context u w1 = (Thrown (ThrownApplicationError e), w2) ->
  exists r w',
    createApiHandler handler options request context w = (Returned r, w') /\
    status r = 500 /\
    error_code_of r = Some (JStr (code_string INTERNAL_SERVER_ERROR)) /\
    body r = Some (JObj [("success", JBool false);
                         ("error",
                          JObj [("code", JStr "INTERNAL_SERVER_ERROR");
                                ("message", JStr (message e));
                                ("details",
                                 JObj [("requestId", JStr (request_id_of w))])]);
                         ("meta", JObj [("timestamp", JDate (clock w2 (ticks w2)))])]).
Proof.
  intros (wa & wb & Hm & Hl & Ha) Hh.
  rewrite createApiHandler_unfold, api_handler_try_stages.
  unfold try_catch, bind at 1 2. rewrite Hm, Hl. unfold bind at 1. rewrite Ha, Hh.
  eexists _, _. split; [reflexivity|]. repeat split.
Qed.

Lemma typed_error_answered_as_internal_witness :
  exists r w',
    createApiHandler chat_not_found_handler no_options sample_request None initial_world
      = (Returned r, w') /\
    status r = 500 /\
    error_code_of r = Some (JStr (code_string INTERNAL_SERVER_ERROR)) /\
    body r = Some (JObj [("success", JBool false);
                         ("error",
                          JObj [("code", JStr "INTERNAL_SERVER_ERROR");
                                ("message", JStr "Chat not found");
                                ("details",
                                 JObj [("requestId", JStr "req_0_k3j9x0")])]);
                         ("meta", JObj [("timestamp", JDate 2000)])]).
Proof.
  apply (typed_error_answered_as_internal chat_not_found_handler no_options
           sample_request None initial_world
           (getAuthenticatedUser sample_request (after_request_id initial_world)).2
           (handler_stage chat_not_found_handler sample_request None None
              (getAuthenticatedUser sample_request (after_request_id initial_world)).2).2
           None
           {| code := RECORD_NOT_FOUND; message := "Chat not found"; details := None;
              timestamp := 1000; userId := None; requestId := None |}).
  - eexists _, _. split; [reflexivity|]. split; reflexivity.
  - reflexivity.
Defined.

(** C2 as stated fails: the typed RECORD_NOT_FOUND error of the handler is
    not answered with 404 and its own code. *)
Lemma typed_error_conversion_counterexample :
  ~ wrapper_answers_as_responder chat_not_found_handler no_options sample_request None
      initial_world.
Proof.
  intros H. edestruct H as (r & w' & Hrun & Hst & _).
  - eexists _, _. split; [reflexivity|]. split; reflexivity.
  - reflexivity.
  - vm_compute in Hrun. injection Hrun as <- _. discriminate Hst.
Qed.

(** The middleware answers an admitted request with a header-only
    response, not with [null]. *)
Lemma createRateLimit_admitted (config : RateLimitConfig) (request : NextRequest)
    (w w1 : World) (res : CheckResult) :
  RateLimiter.check config request w = (Returned res, w1) ->
  allowed res = true ->
  createRateLimit config request w
  = (Returned (Some {| status := 200;
                       headers := RateLimiter.getHeaders config (remaining res)
                                    (cr_resetTime res);
                       body := None |}), w1).
Proof.
  intros Hcheck Hallowed. unfold createRateLimit, try_catch, bind.
  cbn [limiter_check limiter_getHeaders RateLimiter_Limiter].
  rewrite Hcheck. cbn. rewrite Hallowed. reflexivity.
Qed.

(** So the wrapper returns that response for an admitted request, whatever
    the domain handler is. *)
Lemma createApiHandler_admitted (handler : DomainHandler) (options : ApiHandlerOptions)
    (config : RateLimitConfig) (request : NextRequest) (context : option json)
    (w w1 : World) (res : CheckResult) :
  method_permitted options request = true ->
  opt_rateLimiter options = Some (createRateLimit config) ->
  RateLimiter.check config request (after_request_id w) = (Returned res, w1) ->
  allowed res = true ->
  createApiHandler handler options request context w
  = (Returned {| status := 200;
                 headers := RateLimiter.getHeaders config (remaining res)
                              (cr_resetTime res);
                 body := None |}, w1).
Proof.
  intros Hm Hopt Hcheck Hallowed.
  rewrite createApiHandler_unfold, api_handler_try_stages.
  unfold try_catch, bind at 1 2. rewrite (method_stage_pass _ _ _ Hm).
  unfold limiter_stage. rewrite Hopt.
  rewrite (createRateLimit_admitted config request _ w1 res Hcheck Hallowed).
  reflexivity.
Qed.

(** A rejected request is answered by the middleware with the 429
    response, which the wrapper returns without calling the handler. *)
Lemma createApiHandler_rejected (handler : DomainHandler) (options : ApiHandlerOptions)
    (config : RateLimitConfig) (request : NextRequest) (context : option json)
    (w w1 : World) (res : CheckResult) :
  method_permitted options request = true ->
  opt_rateLimiter options = Some (createRateLimit config) ->
  RateLimiter.check config request (after_request_id w) = (Returned res, w1) ->
  allowed res = false ->
  exists r,
    createApiHandler handler options request context w
    = (Returned r, set_ticks (S (S (ticks w1))) w1) /\
    status r = 429 /\
    error_code_of r = Some (JStr "RATE_LIMITED") /\
    assoc_header "Retry-After" (headers r)
    = Some (toString (ceil_div (cr_resetTime res - clock w1 (S (ticks w1))) 1000)) /\
    no_handler_since w1 (set_ticks (S (S (ticks w1))) w1).
Proof.
  intros Hm Hopt Hcheck Hallowed.
  rewrite createApiHandler_stages, (method_stage_pass _ _ _ Hm).
  unfold limiter_stage. rewrite Hopt.
  unfold createRateLimit, try_catch, bind.
  cbn [limiter_check limiter_getHeaders limiter_message RateLimiter_Limiter].
  rewrite Hcheck. cbn. rewrite Hallowed. cbn.
  eexists. split; [reflexivity|]. repeat split.
  exists []. split; [cbn; symmetry; apply app_nil_r|reflexivity].
Qed.

(** C1 on the code. A GET request that passes the method check and that the
    chat limiter admits (first request of its window, 59 remaining) is answered
    with the middleware's status 200, header-only, empty response; the
    domain handler is not invoked and its 201 response is not what the
    caller receives. *)
Theorem admitted_request_never_reaches_handler :
  method_permitted limited_options sample_request = true /\
  (exists res w1,
      RateLimiter.check chatLimiter sample_request
        (after_request_id initial_world) = (Returned res, w1) /\
      allowed res = true /\ remaining res = 59) /\
  (exists r w',
      createApiHandler created_handler limited_options sample_request None initial_world
        = (Returned r, w') /\
      status r = 200 /\
      body r = None /\
      headers r = [("X-RateLimit-Limit", "60"); ("X-RateLimit-Remaining", "59");
                   ("X-RateLimit-Reset", "62"); ("X-RateLimit-Window", "60")] /\
      handler_invoked w' = false /\
      (forall u w0, created_handler sample_request {| params := None; user := u |} w0
                    <> (Returned r, w0)) /\
      (forall handler : DomainHandler,
          createApiHandler handler limited_options sample_request None initial_world
          = (Returned r, w'))).
Proof.
  assert (exists res w1,
             RateLimiter.check chatLimiter sample_request
               (after_request_id initial_world) = (Returned res, w1) /\
             allowed res = true /\ remaining res = 59) as Hadmit.
  { rewrite (check_step chatLimiter sample_request
               "rate_limit:203.0.113.7" (fun w => eq_refl)).
    cbv zeta. unfold swept. cbn [store after_request_id set_draws set_ticks initial_world].
    rewrite map_filter_empty, lookup_empty. cbn.
    eexists _, _. split; [reflexivity|]. split; reflexivity. }
  split; [reflexivity|]. split; [exact Hadmit|].
  destruct Hadmit as (res & w1 & Hcheck & Hallowed & Hrem).
  pose proof (fun h => createApiHandler_admitted h limited_options
                         chatLimiter sample_request None initial_world
                         w1 res eq_refl eq_refl Hcheck Hallowed) as Hall.
  rewrite (check_step chatLimiter sample_request
             "rate_limit:203.0.113.7" (fun w => eq_refl)) in Hcheck.
  cbv zeta in Hcheck. unfold swept in Hcheck.
  cbn [store after_request_id set_draws set_ticks initial_world] in Hcheck.
  rewrite map_filter_empty, lookup_empty in Hcheck. cbn in Hcheck.
  injection Hcheck as <- <-.
  eexists _, _. split; [apply Hall|]. split; [reflexivity|]. split; [reflexivity|].
  split; [reflexivity|]. split; [reflexivity|]. split; [|exact Hall].
  intros u w0 Heq. discriminate Heq.
Qed.

(** The middleware's [catch]: a failure of the limiter is logged and
    answered with [null]. *)
Lemma createRateLimit_failure {L} `{Limiter L} (limiter : L) (request : NextRequest)
    (w w1 : World) (t : thrown) :
  limiter_failure limiter request w t w1 ->
  createRateLimit limiter request w
  = (Returned None, logged "Rate limiting error:" t w1).
Proof.
  unfold createRateLimit, try_catch, bind.
  intros [Hcheck|(res & wc & Hcheck & Hhdr)]; rewrite Hcheck; [reflexivity|].
  rewrite Hhdr. reflexivity.
Qed.

(** C10. When the limiter's [check] or its header construction throws, the
    middleware of [createRateLimit] catches the exception and returns
    [null], and the wrapped handler goes on exactly as the wrapper without
    a rate limiter does from the world the failure left: the failure itself
    produces no response. *)
Theorem rate_limiter_fails_open {L} `{Limiter L} (limiter : L) (handler : DomainHandler)
    (options : ApiHandlerOptions) (request : NextRequest) (context : option json)
    (w w1 : World) (t : thrown) :
  opt_rateLimiter options = Some (createRateLimit limiter) ->
  method_permitted options request = true ->
  limiter_failure limiter request (after_request_id w) t w1 ->
  createRateLimit limiter request (after_request_id w)
  = (Returned None, logged "Rate limiting error:" t w1) /\
  createApiHandler handler options request context w
  = try_catch (api_handler_try handler (without_rate_limit options) request context)
      (api_handler_catch (request_id_of w))
      (logged "Rate limiting error:" t w1).
Proof.
  intros Hopt Hm Hfail.
  pose proof (createRateLimit_failure limiter request _ w1 t Hfail) as Hmw.
  split; [exact Hmw|].
  rewrite (createApiHandler_to_auth handler options request context w
             (logged "Rate limiting error:" t w1) Hm).
  - symmetry. apply (try_block_to_auth handler (without_rate_limit options)); [exact Hm|].
    reflexivity.
  - unfold limiter_stage. rewrite Hopt. exact Hmw.
Qed.

Lemma rate_limiter_fails_open_witness :
  createRateLimit keyless_config sample_request (after_request_id initial_world)
  = (Returned None,
     logged "Rate limiting error:" (ThrownError "cannot derive a key")
       (cleanup (after_request_id initial_world)).2) /\
  createApiHandler created_handler
    {| opt_requireAuth := None; opt_allowedMethods := Some ["GET"];
       opt_rateLimiter := Some (createRateLimit keyless_config) |}
    sample_request None initial_world
  = try_catch (api_handler_try created_handler
                 {| opt_requireAuth := None; opt_allowedMethods := Some ["GET"];
                    opt_rateLimiter := None |}
                 sample_request None)
      (api_handler_catch (request_id_of initial_world))
      (logged "Rate limiting error:" (ThrownError "cannot derive a key")
         (cleanup (after_request_id initial_world)).2).
Proof.
  apply (rate_limiter_fails_open keyless_config created_handler
           {| opt_requireAuth := None; opt_allowedMethods := Some ["GET"];
              opt_rateLimiter := Some (createRateLimit keyless_config) |}
           sample_request None initial_world
           (cleanup (after_request_id initial_world)).2
           (ThrownError "cannot derive a key")).
  - reflexivity.
  - reflexivity.
  - left. reflexivity.
Defined.

(** * Further properties of the request layer *)

(** ** Retry helper: success, exhaustion and the empty budget *)

Lemma invocations_after_mark (t : list Event) :
  invocations (t ++ [EvOperation]) = S (invocations t).
Proof. rewrite invocations_app. unfold invocations at 2. cbn. lia. Qed.

Lemma invocations_after_sleep (t : list Event) (ms : Z) :
  invocations (t ++ [EvSleep ms]) = invocations t.
Proof. rewrite invocations_app. unfold invocations at 2. cbn. lia. Qed.

Lemma invocations_retry_schedule (delay : Z) (k : nat) :
  forall attempt, invocations (retry_schedule delay attempt k) = S k.
Proof.
  induction k as [|k IH]; intros a; [reflexivity|].
  cbn [retry_schedule].
  change (EvOperation :: EvSleep (delay * 2 ^ (a - 1)) :: retry_schedule delay (a + 1) k)
    with ([EvOperation; EvSleep (delay * 2 ^ (a - 1))]
          ++ retry_schedule delay (a + 1) k)%list.
  rewrite invocations_app, IH. reflexivity.
Qed.

(** The loop returns the first success of a scripted operation. *)
Lemma withRetry_loop_succeeds {T} (script : nat -> outcome T) (maxRetries delay : Z)
    (v : T) (k : nat) :
  forall (fuel : nat) (attempt : Z) (lastError : option thrown) (w : World),
    (k < fuel)%nat ->
    attempt + Z.of_nat k <= maxRetries ->
    (forall i, (i < k)%nat ->
               exists t, script (invocations (trace w) + 1 + i)%nat = Thrown t) ->
    script (invocations (trace w) + 1 + k)%nat = Returned v ->
    exists w',
      withRetry_loop (scripted script) maxRetries delay fuel attempt lastError w
        = (Returned v, w') /\
      trace w' = (trace w ++ retry_schedule delay attempt k)%list /\
      store w' = store w.
Proof.
  induction k as [|k IH]; intros fuel attempt lastError w Hfuel Hle Hfail Hok.
  - destruct fuel as [|fuel]; [lia|]. cbn [withRetry_loop].
    replace (attempt <=? maxRetries) with true by (symmetry; apply Z.leb_le; lia).
    unfold try_catch, bind, emit, scripted. cbn [trace set_trace].
    rewrite invocations_after_mark.
    replace (S (invocations (trace w))) with (invocations (trace w) + 1 + 0)%nat by lia.
    rewrite Hok. eexists. split; [reflexivity|]. split; reflexivity.
  - destruct fuel as [|fuel]; [lia|]. cbn [withRetry_loop].
    replace (attempt <=? maxRetries) with true by (symmetry; apply Z.leb_le; lia).
    replace (attempt =? maxRetries) with false by (symmetry; apply Z.eqb_neq; lia).
    unfold try_catch at 1. unfold bind at 1 2. unfold emit at 1. unfold scripted at 1.
    cbn [trace set_trace]. rewrite invocations_after_mark.
    destruct (Hfail O ltac:(lia)) as [t Ht].
    replace (invocations (trace w) + 1 + 0)%nat with (S (invocations (trace w)))
      in Ht by lia.
    rewrite Ht. unfold sleep, emit, bind.
    set (w2 := set_trace _ _).
    assert (invocations (trace w2) = S (invocations (trace w))) as Hinv.
    { subst w2. cbn [trace set_trace].
      rewrite invocations_after_sleep, invocations_after_mark. reflexivity. }
    destruct (IH fuel (attempt + 1) (Some (as_Error t)) w2) as (w' & Hrun & Htr & Hst).
    + lia.
    + lia.
    + intros i Hi. rewrite Hinv.
      replace (S (invocations (trace w)) + 1 + i)%nat
        with (invocations (trace w) + 1 + S i)%nat by lia.
      apply Hfail. lia.
    + rewrite Hinv.
      replace (S (invocations (trace w)) + 1 + k)%nat
        with (invocations (trace w) + 1 + S k)%nat by lia.
      exact Hok.
    + exists w'. split; [exact Hrun|]. split; [|rewrite Hst; reflexivity].
      rewrite Htr. subst w2. cbn [trace set_trace retry_schedule].
      rewrite <- !app_assoc. reflexivity.
Qed.

(** X1. An operation that fails on its first [k] invocations and succeeds
    on the next, with [k] below the attempt budget, makes [withRetry]
    return the success value after exactly [k + 1] invocations, sleeping
    [delay * 2^(i-1)] after the i-th failure and touching nothing else. *)
Theorem withRetry_returns_first_success {T} (script : nat -> outcome T)
    (maxRetries delay : Z) (v : T) (k : nat) (w : World) :
  (forall i, (i < k)%nat ->
             exists t, script (invocations (trace w) + 1 + i)%nat = Thrown t) ->
  script (invocations (trace w) + 1 + k)%nat = Returned v ->
  Z.of_nat k < maxRetries ->
  exists w',
    withRetry (scripted script) maxRetries delay w = (Returned v, w') /\
    trace w' = (trace w ++ retry_schedule delay 1 k)%list /\
    invocations (trace w') = (invocations (trace w) + k + 1)%nat /\
    store w' = store w.
Proof.
  intros Hfail Hok Hk.
  destruct (withRetry_loop_succeeds script maxRetries delay v k
              (Z.to_nat maxRetries) 1 None w) as (w' & Hrun & Htr & Hst);
    [lia|lia|exact Hfail|exact Hok|].
  exists w'. split; [exact Hrun|]. split; [exact Htr|]. split; [|exact Hst].
  rewrite Htr, invocations_app, invocations_retry_schedule. lia.
Qed.

Lemma withRetry_returns_first_success_witness :
  exists w',
    withRetry (scripted (fun n => if (n <? 3)%nat then Thrown (ThrownError "HTTP 502")
                                  else Returned 42))
      3 1000 initial_world = (Returned 42, w') /\
    trace w' = (trace initial_world ++ retry_schedule 1000 1 2)%list /\
    invocations (trace w') = (invocations (trace initial_world) + 2 + 1)%nat /\
    store w' = store initial_world.
Proof.
  apply (withRetry_returns_first_success
           (fun n => if (n <? 3)%nat then Thrown (ThrownError "HTTP 502") else Returned 42)
           3 1000 42 2 initial_world).
  - intros i Hi. exists (ThrownError "HTTP 502").
    destruct i as [|[|i]]; [reflexivity|reflexivity|lia].
  - reflexivity.
  - lia.
Defined.



(** X3. With an attempt budget of zero or less the loop body never runs:
    the operation is not invoked, nothing is slept or logged, and what is
    thrown is [undefined], not an [ApplicationError]. *)
Theorem withRetry_without_budget {T} (operation : M T) (maxRetries delay : Z)
    (w : World) :
  maxRetries <= 0 ->
  withRetry operation maxRetries delay w = (Thrown (ThrownValue "undefined"), w).
Proof.
  intros Hmax. unfold withRetry.
  replace (Z.to_nat maxRetries) with O by lia. cbn [withRetry_loop].
  replace (1 <=? maxRetries) with false by (symmetry; apply Z.leb_gt; lia).
  reflexivity.
Qed.

Lemma withRetry_without_budget_witness :
  withRetry (ret 7 : M Z) 0 1000 initial_world
  = (Thrown (ThrownValue "undefined"), initial_world).
Proof. apply (withRetry_without_budget (ret 7) 0 1000 initial_world). lia. Defined.

(** ** Error responder: the envelope for whatever is thrown *)

(** X4. [handleApiError] answers every thrown value, typed or not, with a
    response and never throws: the body's [error.code] is a member of the
    enumeration, [error.message] is present, the status is one of the nine
    of the table, the error is logged exactly once and the rate limit store
    is left alone. *)
Theorem handleApiError_uniform_envelope (error : thrown) (uid rid : option string)
    (w : World) :
  exists r w' c msg,
    handleApiError error uid rid w = (Returned r, w') /\
    error_code_of r = Some (JStr (code_string c)) /\
    (exists b e, body r = Some b /\ get_field "error" b = Some e /\
                 get_field "message" e = Some (JStr msg)) /\
    In (status r) [400; 401; 403; 404; 408; 409; 429; 500; 503] /\
    trace w' = (trace w ++ [EvConsoleError "API Error:" (Some error)])%list /\
    store w' = store w.
Proof.
  unfold handleApiError, bind, console_error, emit.
  destruct error as [r0|e|m|text]; cbn [error_message].
  - eexists _, _, INTERNAL_SERVER_ERROR, _. split; [reflexivity|].
    split; [reflexivity|]. split; [eexists _, _; repeat split|].
    split; [cbn; tauto|]. split; reflexivity.
  - eexists _, _, (code e), (message e). split; [reflexivity|].
    split; [reflexivity|]. split; [eexists _, _; repeat split|].
    split; [destruct (code e); cbn; tauto|]. split; reflexivity.
  - destruct (includes "relation" m && includes "does not exist" m);
      [|destruct (includes "timeout" m || includes "ECONNREFUSED" m)].
    + eexists _, _, DATABASE_ERROR, _. split; [reflexivity|].
      split; [reflexivity|]. split; [eexists _, _; repeat split|].
      split; [cbn; tauto|]. split; reflexivity.
    + eexists _, _, NETWORK_ERROR, _. split; [reflexivity|].
      split; [reflexivity|]. split; [eexists _, _; repeat split|].
      split; [cbn; tauto|]. split; reflexivity.
    + eexists _, _, INTERNAL_SERVER_ERROR, _. split; [reflexivity|].
      split; [reflexivity|]. split; [eexists _, _; repeat split|].
      split; [cbn; tauto|]. split; reflexivity.
  - eexists _, _, INTERNAL_SERVER_ERROR, _. split; [reflexivity|].
    split; [reflexivity|]. split; [eexists _, _; repeat split|].
    split; [cbn; tauto|]. split; reflexivity.
Qed.

(** X5. What reaches the client of an [Error] that is not an
    [ApplicationError]: when the message matches neither heuristic the
    response is 500 INTERNAL_SERVER_ERROR and carries the raw message; when
    it reads like a missing relation the response is 500 DATABASE_ERROR with
    a fixed text in place of the message, whatever else the message says. *)
Theorem handleApiError_untyped_messages (msg : string) (uid rid : option string)
    (w : World) :
  exists r w',
    handleApiError (ThrownError msg) uid rid w = (Returned r, w') /\
    (includes "relation" msg && includes "does not exist" msg = true ->
       status r = 500 /\
       body r = Some (untyped_error_body DATABASE_ERROR
                        "Database table does not exist. Please run migrations."
                        (clock w (ticks w)))) /\
    (includes "relation" msg && includes "does not exist" msg = false ->
     includes "timeout" msg || includes "ECONNREFUSED" msg = false ->
       status r = 500 /\
       body r = Some (untyped_error_body INTERNAL_SERVER_ERROR msg (clock w (ticks w)))).
Proof.
  unfold handleApiError, bind, console_error, emit. cbn [error_message].
  destruct (includes "relation" msg && includes "does not exist" msg);
    [|destruct (includes "timeout" msg || includes "ECONNREFUSED" msg)];
    (eexists _, _; split; [reflexivity|]; split; intros H;
     [try discriminate H; split; reflexivity
     |try discriminate H; intros H'; try discriminate H'; split; reflexivity]).
Qed.

(** ** Validators: what the responder makes of their failures *)

Lemma required_outcome (value : option json) (fieldName : string) (w : World) :
  validators.required value fieldName w = (Returned tt, w) \/
  exists e w',
    validators.required value fieldName w = (Thrown (ThrownApplicationError e), w') /\
    validation_failure e fieldName.
Proof.
  unfold validators.required.
  destruct value as [[| | |[|c text]| | |]|];
    first [left; reflexivity
          |right; eexists _, _; split; [reflexivity|]; split; reflexivity].
Qed.

Lemma string_outcome (value : option json) (fieldName : string)
    (minLength maxLength : option Z) (w : World) :
  validators.string value fieldName minLength maxLength w = (Returned tt, w) \/
  exists e w',
    validators.string value fieldName minLength maxLength w
      = (Thrown (ThrownApplicationError e), w') /\
    validation_failure e fieldName.
Proof.
  unfold validators.string.
  destruct value as [[| | |text| | |]|];
    try (right; eexists _, _; split; [reflexivity|]; split; reflexivity).
  cbv zeta.
  destruct (match minLength with Some lo => _ | None => false end);
    [right; eexists _, _; split; [reflexivity|]; split; reflexivity|].
  destruct (match maxLength with Some hi => _ | None => false end);
    [right; eexists _, _; split; [reflexivity|]; split; reflexivity|].
  left. reflexivity.
Qed.

(** The responder answers a failure of the validation family with status
    400 and passes the field name on. *)
Lemma validation_failure_answered (e : ApplicationError) (fieldName : string)
    (w : World) :
  validation_failure e fieldName ->
  exists r w',
    handleApiError (ThrownApplicationError e) None None w = (Returned r, w') /\
    status r = 400 /\
    match error_details_of r with
    | Some d => get_field "field" d = Some (JStr fieldName)
    | None => False
    end.
Proof.
  intros [Hfam Hdet]. eexists _, _. split; [reflexivity|]. split.
  - cbn. destruct (code e); (reflexivity || discriminate Hfam).
  - unfold error_details_of. cbn. destruct (details e) as [d|]; [|contradiction].
    cbn. exact Hdet.
Qed.

(** X6. Whatever one of the four validators throws, [handleApiError] turns
    into a status 400 response whose [error.details.field] is the name of
    the field that was checked. *)
Theorem validator_failures_are_client_errors :
  forall (run : M unit) (fieldName : string),
    (exists value, run = validators.required value fieldName) \/
    (exists value lo hi, run = validators.string value fieldName lo hi) \/
    (exists value, run = validators.email value (Some fieldName)) \/
    (exists value, run = validators.uuid value fieldName) ->
    forall (w w1 : World) (t : thrown),
      run w = (Thrown t, w1) ->
      exists r w2,
        handleApiError t None None w1 = (Returned r, w2) /\
        status r = 400 /\
        match error_details_of r with
        | Some d => get_field "field" d = Some (JStr fieldName)
        | None => False
        end.
Proof.
  intros run fieldName Hrun w w1 t Hthrow.
  assert (exists e, t = ThrownApplicationError e /\ validation_failure e fieldName)
    as (e & -> & Hfail).
  { destruct Hrun as [[v ->]|[(v & lo & hi & ->)|[[v ->]|[v ->]]]].
    - destruct (required_outcome v fieldName w) as [H|(e & w' & H & Hv)];
        rewrite H in Hthrow; [discriminate|]. injection Hthrow as <- _. eauto.
    - destruct (string_outcome v fieldName lo hi w) as [H|(e & w' & H & Hv)];
        rewrite H in Hthrow; [discriminate|]. injection Hthrow as <- _. eauto.
    - destruct (email_outcome v (Some fieldName) w) as [H|(e & w' & H & Hv)];
        rewrite H in Hthrow; [discriminate|]. injection Hthrow as <- _. eauto.
    - destruct (uuid_outcome v fieldName w) as [H|(e & w' & H & Hv)];
        rewrite H in Hthrow; [discriminate|]. injection Hthrow as <- _. eauto. }
  apply validation_failure_answered. exact Hfail.
Qed.

Lemma validator_failures_are_client_errors_witness :
  exists r w2,
    handleApiError
      (ThrownApplicationError
         {| code := VALIDATION_ERROR;
            message := "title must be no more than 100 characters";
            details := Some (JObj [("field", JStr "title"); ("maxLength", JNum 100);
                                   ("currentLength", JNum 101)]);
            timestamp := 0; userId := None; requestId := None |})
      None None (set_ticks 1 initial_world) = (Returned r, w2) /\
    status r = 400 /\
    match error_details_of r with
    | Some d => get_field "field" d = Some (JStr "title")
    | None => False
    end.
Proof.
  apply (validator_failures_are_client_errors
           (validators.string
              (Some (JStr (String.concat "" (List.repeat "0123456789x" 9) +:+ "ab")))
              "title" (Some 1) (Some 100))
           "title"
           (or_intror (or_introl (ex_intro _ _ (ex_intro _ _ (ex_intro _ _ eq_refl)))))
           initial_world).
  reflexivity.
Defined.

(** X7. A value that [validators.string] accepts with a minimum length of
    one or more is a value [validators.required] accepts: the length check
    makes the presence check redundant. *)
Theorem string_check_implies_required (value : option json) (fieldName : string)
    (lo : Z) (hi : option Z) (w : World) :
  1 <= lo ->
  validators.string value fieldName (Some lo) hi w = (Returned tt, w) ->
  validators.required value fieldName w = (Returned tt, w).
Proof.
  intros Hlo Hrun. unfold validators.string in Hrun. unfold validators.required.
  destruct value as [[| | |[|c text]| | |]|]; try discriminate Hrun; try reflexivity.
  cbv zeta in Hrun. cbn [String.length] in Hrun.
  replace (Z.of_nat 0 <? lo) with true in Hrun by (symmetry; apply Z.ltb_lt; lia).
  discriminate Hrun.
Qed.

Lemma string_check_implies_required_witness :
  validators.required (Some (JStr "Trip")) "title" initial_world
  = (Returned tt, initial_world).
Proof.
  apply (string_check_implies_required (Some (JStr "Trip")) "title" 1 (Some 100)
           initial_world); [lia|reflexivity].
Defined.

(** X8. With a minimum length above the maximum length,
    [validators.string] rejects every value: nothing but a string passes
    the type test and no string has a length inside inverted bounds. *)
Theorem string_inverted_bounds_reject (value : option json) (fieldName : string)
    (lo hi : Z) (w : World) :
  hi < lo ->
  exists e w',
    validators.string value fieldName (Some lo) (Some hi) w
      = (Thrown (ThrownApplicationError e), w') /\
    validation_failure e fieldName.
Proof.
  intros Hinv.
  destruct (string_outcome value fieldName (Some lo) (Some hi) w) as [H|H]; [|exact H].
  exfalso. unfold validators.string in H.
  destruct value as [[| | |text| | |]|]; try discriminate H.
  cbv zeta in H.
  destruct (Z.ltb_spec (Z.of_nat (String.length text)) lo); [discriminate H|].
  destruct (Z.ltb_spec hi (Z.of_nat (String.length text))); [discriminate H|lia].
Qed.

Lemma string_inverted_bounds_reject_witness :
  exists e w',
    validators.string (Some (JStr "hello")) "name" (Some 10) (Some 3) initial_world
      = (Thrown (ThrownApplicationError e), w') /\
    validation_failure e "name".
Proof.
  apply (string_inverted_bounds_reject (Some (JStr "hello")) "name" 10 3 initial_world).
  lia.
Defined.

(** ** asyncHandler *)

(** The three ways a call wrapped by [asyncHandler] ends. *)
Lemma asyncHandler_cases {R} (production : bool) (name : string) (fn : M R)
    (w : World) :
  match fn w with
  | (Returned v, w1) => asyncHandler production name fn w = (Returned v, w1)
  | (Thrown (ThrownApplicationError e), w1) =>
      exists label,
        asyncHandler production name fn w
        = (Thrown (ThrownApplicationError e),
           logged label (ThrownApplicationError e) (set_ticks (S (ticks w1)) w1))
  | (Thrown t, w1) =>
      exists e label,
        asyncHandler production name fn w
        = (Thrown (ThrownApplicationError e),
           logged label (ThrownApplicationError e) (set_ticks (S (S (ticks w1))) w1)) /\
        code e = INTERNAL_SERVER_ERROR /\
        message e = match error_message t with
                    | Some msg => msg
                    | None => "Unknown error occurred"
                    end /\
        details e = None /\
        timestamp e = clock w1 (ticks w1)
  end.
Proof.
  unfold asyncHandler, try_catch.
  destruct (fn w) as [[v|[r|e|msg|text]] w1]; [reflexivity| | | |];
    unfold bind, logError, new_ApplicationError, bind, Date_now, console_error, emit,
      ret, throw; cbn;
    destruct production; eexists; try eexists; try (split; [reflexivity|]);
    try reflexivity; repeat split.
Qed.

(** X9. [asyncHandler] passes a result through untouched, rethrows a typed
    error as the same error, and replaces anything else that is thrown by an
    INTERNAL_SERVER_ERROR [ApplicationError] that keeps only the message:
    what leaves it is always an [ApplicationError], and each failure is
    logged once. *)
Theorem asyncHandler_outcomes {R} (production : bool) (name : string) (fn : M R)
    (w : World) :
  match fn w with
  | (Returned v, w1) => asyncHandler production name fn w = (Returned v, w1)
  | (Thrown (ThrownApplicationError e), w1) =>
      exists label,
        asyncHandler production name fn w
        = (Thrown (ThrownApplicationError e),
           logged label (ThrownApplicationError e) (set_ticks (S (ticks w1)) w1))
  | (Thrown t, w1) =>
      exists e label,
        asyncHandler production name fn w
        = (Thrown (ThrownApplicationError e),
           logged label (ThrownApplicationError e) (set_ticks (S (S (ticks w1))) w1)) /\
        code e = INTERNAL_SERVER_ERROR /\
        message e = match error_message t with
                    | Some msg => msg
                    | None => "Unknown error occurred"
                    end /\
        details e = None /\
        timestamp e = clock w1 (ticks w1)
  end.
Proof. apply asyncHandler_cases. Qed.

(** X10. An untyped failure that went through [asyncHandler] no longer
    meets the heuristics of [handleApiError]: whatever its message says,
    timeouts and refused connections included, the response is 500
    INTERNAL_SERVER_ERROR with that message. *)
Theorem asyncHandler_defeats_classification {R} (production : bool) (name : string)
    (fn : M R) (msg : string) (w w1 : World) :
  fn w = (Thrown (ThrownError msg), w1) ->
  exists t w2 r w3,
    asyncHandler production name fn w = (Thrown t, w2) /\
    handleApiError t None None w2 = (Returned r, w3) /\
    status r = 500 /\
    error_code_of r = Some (JStr (code_string INTERNAL_SERVER_ERROR)) /\
    error_message_of r = Some (JStr msg).
Proof.
  intros Hfn. pose proof (asyncHandler_cases production name fn w) as H.
  rewrite Hfn in H. destruct H as (e & label & Hrun & Hc & Hm & Hd & _).
  eexists _, _, _, _. split; [exact Hrun|]. split; [reflexivity|].
  cbn. rewrite Hc. split; [reflexivity|]. split; [reflexivity|].
  unfold error_message_of. cbn. rewrite Hm. reflexivity.
Qed.

Lemma asyncHandler_defeats_classification_witness :
  exists t w2 r w3,
    asyncHandler true "fetchWeather" (throw (ThrownError "connect ECONNREFUSED") : M Z)
      initial_world = (Thrown t, w2) /\
    handleApiError t None None w2 = (Returned r, w3) /\
    status r = 500 /\
    error_code_of r = Some (JStr (code_string INTERNAL_SERVER_ERROR)) /\
    error_message_of r = Some (JStr "connect ECONNREFUSED").
Proof.
  apply (asyncHandler_defeats_classification true "fetchWeather"
           (throw (ThrownError "connect ECONNREFUSED")) "connect ECONNREFUSED"
           initial_world initial_world).
  reflexivity.
Defined.

(** ** Request handler wrapper: every way a request ends *)

Lemma api_handler_catch_responds (rid : string) (t : thrown) (w1 : World) :
  exists r,
    api_handler_catch rid t w1
    = (Returned r,
       match t with
       | ThrownResponse _ => logged ("API Error [" +:+ rid +:+ "]:") t w1
       | _ => set_ticks (S (ticks w1)) (logged ("API Error [" +:+ rid +:+ "]:") t w1)
       end) /\
    match t with
    | ThrownResponse r0 => r = r0
    | _ =>
        status r = 500 /\
        error_code_of r = Some (JStr "INTERNAL_SERVER_ERROR") /\
        error_message_of r
        = Some (JStr match error_message t with
                     | Some msg => msg
                     | None => "An unexpected error occurred"
                     end) /\
        error_details_of r = Some (JObj [("requestId", JStr rid)])
    end.
Proof.
  unfold api_handler_catch, bind, console_error, emit.
  destruct t as [r0|e|msg|text]; cbn; eexists; (split; [reflexivity|]);
    first [reflexivity | repeat split].
Qed.

(** X11. The wrapped handler never throws: whatever the domain handler,
    the rate limiter or the session lookup do, a response comes back.  It
    is the response the [try] block returned or threw, and for anything
    else thrown it is a 500 INTERNAL_SERVER_ERROR that carries the thrown
    error's message (or a fixed text for a value that is no [Error]) and the
    request id. *)
Theorem createApiHandler_always_responds (handler : DomainHandler)
    (options : ApiHandlerOptions) (request : NextRequest) (context : option json)
    (w : World) :
  exists r w',
    createApiHandler handler options request context w = (Returned r, w') /\
    match api_handler_try handler options request context (after_request_id w) with
    | (Returned r0, _) => r = r0
    | (Thrown (ThrownResponse r0), _) => r = r0
    | (Thrown t, _) =>
        status r = 500 /\
        error_code_of r = Some (JStr "INTERNAL_SERVER_ERROR") /\
        error_message_of r
        = Some (JStr match error_message t with
                     | Some msg => msg
                     | None => "An unexpected error occurred"
                     end) /\
        error_details_of r = Some (JObj [("requestId", JStr (request_id_of w))])
    end.
Proof.
  rewrite createApiHandler_unfold. unfold try_catch.
  destruct (api_handler_try handler options request context (after_request_id w))
    as [[r0|t] w1].
  - eexists _, _. split; reflexivity.
  - destruct (api_handler_catch_responds (request_id_of w) t w1) as (r & Hrun & Hr).
    rewrite Hrun. eexists _, _. split; [reflexivity|].
    destruct t; exact Hr.
Qed.

(** X12. A request whose method is not among [allowedMethods] is answered
    405 METHOD_NOT_ALLOWED with the permitted methods in the details; the
    rate limiter is not consulted, the session is not looked up and the
    domain handler is not invoked: the world only gains two clock readings,
    one random draw and the log line. *)
Theorem disallowed_method_rejected (handler : DomainHandler)
    (options : ApiHandlerOptions) (request : NextRequest) (context : option json)
    (allowedMethods : list string) (w : World) :
  opt_allowedMethods options = Some allowedMethods ->
  method_allowed allowedMethods (method request) = false ->
  exists r,
    createApiHandler handler options request context w
    = (Returned r,
       logged ("API Error [" +:+ request_id_of w +:+ "]:") (ThrownResponse r)
         (set_ticks (S (S (ticks w))) (set_draws (S (draws w)) w))) /\
    status r = 405 /\
    error_code_of r = Some (JStr "METHOD_NOT_ALLOWED") /\
    error_details_of r
    = Some (JObj [("allowedMethods", JArr (List.map JStr allowedMethods))]).
Proof.
  intros Hopt Hm. rewrite createApiHandler_stages.
  unfold method_stage, validateMethod. rewrite Hopt, Hm. cbn.
  eexists. split; [reflexivity|]. repeat split.
Qed.

Lemma disallowed_method_rejected_witness :
  exists r,
    createApiHandler created_handler limited_options
      {| method := "DELETE"; x_forwarded_for := None; ip := Some "198.51.100.4";
         x_user_id := None |}
      None initial_world
    = (Returned r,
       logged ("API Error [" +:+ request_id_of initial_world +:+ "]:") (ThrownResponse r)
         (set_ticks (S (S (ticks initial_world)))
            (set_draws (S (draws initial_world)) initial_world))) /\
    status r = 405 /\
    error_code_of r = Some (JStr "METHOD_NOT_ALLOWED") /\
    error_details_of r
    = Some (JObj [("allowedMethods", JArr (List.map JStr ["GET"; "POST"]))]).
Proof.
  apply (disallowed_method_rejected created_handler limited_options
           {| method := "DELETE"; x_forwarded_for := None; ip := Some "198.51.100.4";
              x_user_id := None |}
           None ["GET"; "POST"] initial_world); reflexivity.
Defined.

Lemma set_trace_twice (t1 t2 : list Event) (w : World) :
  set_trace t1 (set_trace t2 w) = set_trace t1 w.
Proof. reflexivity. Qed.

(** X13. When the session holds a user, a request that passes the method
    check and the rate limiter reaches the domain handler with that user as
    [context.user] and the route parameters as [context.params], whether or
    not [requireAuth] is set, and what the handler returns is what the
    wrapper returns. *)
Theorem identity_passed_to_handler (handler : DomainHandler)
    (options : ApiHandlerOptions) (request : NextRequest) (context : option json)
    (w w1 w2 : World) (u : User) (r : Response) :
  method_permitted options request = true ->
  limiter_stage options request (after_request_id w) = (Returned None, w1) ->
  session w1 = Returned (Some {| session_user := Some u |}) ->
  handler request {| params := context; user := Some u |}
    (set_trace (trace w1 ++ [EvSessionLookup;
                             EvHandler request {| params := context; user := Some u |}])
       w1)
  = (Returned r, w2) ->
  createApiHandler handler options request context w = (Returned r, w2).
Proof.
  intros Hm Hl Hs Hh.
  rewrite (createApiHandler_to_auth handler options request context w w1 Hm Hl).
  assert (getAuthenticatedUser request w1
          = (Returned (Some u), set_trace (trace w1 ++ [EvSessionLookup]) w1)) as Hu.
  { unfold getAuthenticatedUser, try_catch, bind, getServerSession. rewrite Hs.
    cbn. destruct u. reflexivity. }
  unfold try_catch, bind at 1, auth_stage.
  destruct (match opt_requireAuth options with Some b => b | None => false end).
  - unfold bind at 1, requireAuth, bind at 1. rewrite Hu. cbn.
    unfold handler_stage, bind, emit. cbn. rewrite <- app_assoc. cbn.
    rewrite set_trace_twice, Hh. reflexivity.
  - rewrite Hu. unfold handler_stage, bind, emit. cbn. rewrite <- app_assoc. cbn.
    rewrite set_trace_twice, Hh. reflexivity.
Qed.

Lemma identity_passed_to_handler_witness :
  createApiHandler
    (fun _ ctx => ret (Response_json
                         (JStr match user ctx with Some u => user_id u | None => "" end)
                         200))
    {| opt_requireAuth := Some true; opt_allowedMethods := None; opt_rateLimiter := None |}
    sample_request (Some (JObj [("chatId", JStr "c1")]))
    {| store := ∅; clock := fun n => 1000 * Z.of_nat n; ticks := O;
       random36 := fun _ => "k3j9x0"; draws := O;
       session := Returned (Some {| session_user :=
                    Some {| user_id := "u-17"; user_email := "a@b.co";
                            user_name := "Ada"; user_image := "" |} |});
       trace := [] |}
  = (Returned (Response_json (JStr "u-17") 200),
     {| store := ∅; clock := fun n => 1000 * Z.of_nat n; ticks := 1%nat;
        random36 := fun _ => "k3j9x0"; draws := 1%nat;
        session := Returned (Some {| session_user :=
                     Some {| user_id := "u-17"; user_email := "a@b.co";
                             user_name := "Ada"; user_image := "" |} |});
        trace := [EvSessionLookup;
                  EvHandler sample_request
                    {| params := Some (JObj [("chatId", JStr "c1")]);
                       user := Some {| user_id := "u-17"; user_email := "a@b.co";
                                       user_name := "Ada"; user_image := "" |} |}] |}).
Proof.
  eapply (identity_passed_to_handler _ _ sample_request _ _ _ _
            {| user_id := "u-17"; user_email := "a@b.co";
               user_name := "Ada"; user_image := "" |}).
  - reflexivity.
  - reflexivity.
  - reflexivity.
  - reflexivity.
Defined.

(** X14. Without [requireAuth], a request with no identity still reaches
    the domain handler, with [context.user] set to [null]; even a session
    lookup that throws only leaves a log line behind. *)
Theorem anonymous_request_reaches_handler (handler : DomainHandler)
    (options : ApiHandlerOptions) (request : NextRequest) (context : option json)
    (w w1 : World) :
  opt_requireAuth options <> Some true ->
  method_permitted options request = true ->
  limiter_stage options request (after_request_id w) = (Returned None, w1) ->
  no_identity w1 ->
  exists wa,
    getAuthenticatedUser request w1 = (Returned None, wa) /\
    no_handler_since w1 wa /\
    createApiHandler handler options request context w
    = try_catch
        (handler request {| params := context; user := None |})
        (api_handler_catch (request_id_of w))
        (set_trace (trace wa ++ [EvHandler request {| params := context; user := None |}])
           wa).
Proof.
  intros Hauth Hm Hl Hnone.
  destruct (getAuthenticatedUser_none request w1 Hnone) as (wa & Hrun & _ & _ & Hn).
  exists wa. split; [exact Hrun|]. split; [exact Hn|].
  rewrite (createApiHandler_to_auth handler options request context w w1 Hm Hl).
  unfold try_catch, bind at 1, auth_stage.
  destruct (opt_requireAuth options) as [[|]|]; [congruence| |];
    rewrite Hrun; reflexivity.
Qed.

Lemma anonymous_request_reaches_handler_witness :
  exists wa,
    getAuthenticatedUser sample_request
      (after_request_id
         {| store := ∅; clock := fun n => 1000 * Z.of_nat n; ticks := O;
            random36 := fun _ => "k3j9x0"; draws := O;
            session := Thrown (ThrownError "session store unreachable");
            trace := [] |})
    = (Returned None, wa) /\
    no_handler_since
      (after_request_id
         {| store := ∅; clock := fun n => 1000 * Z.of_nat n; ticks := O;
            random36 := fun _ => "k3j9x0"; draws := O;
            session := Thrown (ThrownError "session store unreachable");
            trace := [] |}) wa /\
    createApiHandler created_handler no_options sample_request None
      {| store := ∅; clock := fun n => 1000 * Z.of_nat n; ticks := O;
         random36 := fun _ => "k3j9x0"; draws := O;
         session := Thrown (ThrownError "session store unreachable");
         trace := [] |}
    = try_catch
        (created_handler sample_request {| params := None; user := None |})
        (api_handler_catch "req_0_k3j9x0")
        (set_trace (trace wa ++ [EvHandler sample_request {| params := None; user := None |}])
           wa).
Proof.
  apply (anonymous_request_reaches_handler created_handler no_options sample_request None
           {| store := ∅; clock := fun n => 1000 * Z.of_nat n; ticks := O;
              random36 := fun _ => "k3j9x0"; draws := O;
              session := Thrown (ThrownError "session store unreachable");
              trace := [] |}
           (after_request_id
              {| store := ∅; clock := fun n => 1000 * Z.of_nat n; ticks := O;
                 random36 := fun _ => "k3j9x0"; draws := O;
                 session := Thrown (ThrownError "session store unreachable");
                 trace := [] |})).
  - discriminate.
  - reflexivity.
  - reflexivity.
  - exact I.
Defined.

(** X15. The escape hatch: a [Response] thrown by the domain handler is
    returned by the wrapper as it is, status and body untouched, after one
    log line. *)
Theorem thrown_response_returned_as_is (handler : DomainHandler)
    (options : ApiHandlerOptions) (request : NextRequest) (context : option json)
    (w w1 w2 : World) (u : option User) (r : Response) :
  reaches_handler options request w w1 u ->
  handler_stage handler request context u w1 = (Thrown (ThrownResponse r), w2) ->
  createApiHandler handler options request context w
  = (Returned r,
     logged ("API Error [" +:+ request_id_of w +:+ "]:") (ThrownResponse r) w2).
Proof.
  intros (wa & wb & Hm & Hl & Ha) Hh.
  rewrite createApiHandler_unfold, api_handler_try_stages.
  unfold try_catch, bind at 1 2. rewrite Hm, Hl. unfold bind at 1. rewrite Ha, Hh.
  reflexivity.
Qed.

Lemma thrown_response_returned_as_is_witness :
  createApiHandler
    (fun _ _ => throw (ThrownResponse (Response_json (JObj [("error", JStr "gone")]) 410)))
    no_options sample_request None initial_world
  = (Returned (Response_json (JObj [("error", JStr "gone")]) 410),
     logged ("API Error [" +:+ request_id_of initial_world +:+ "]:")
       (ThrownResponse (Response_json (JObj [("error", JStr "gone")]) 410))
       (handler_stage
          (fun _ _ =>
             throw (ThrownResponse (Response_json (JObj [("error", JStr "gone")]) 410)))
          sample_request None None
          (getAuthenticatedUser sample_request (after_request_id initial_world)).2).2).
Proof.
  apply (thrown_response_returned_as_is
           (fun _ _ =>
              throw (ThrownResponse (Response_json (JObj [("error", JStr "gone")]) 410)))
           no_options sample_request None initial_world
           (getAuthenticatedUser sample_request (after_request_id initial_world)).2
           _ None).
  - eexists _, _. split; [reflexivity|]. split; reflexivity.
  - reflexivity.
Defined.

(** ** Request bodies *)

Lemma parseRequestBody_cases (request_json : M json)
    (validator : option (json -> M bool)) (w : World) :
  match parseRequestBody request_json validator w with
  | (Returned body, w') =>
      exists w1,
        request_json w = (Returned body, w1) /\
        match validator with
        | Some check => check body w1 = (Returned true, w')
        | None => w' = w1
        end
  | (Thrown t, _) => t = ThrownError "Invalid JSON in request body"
  end.
Proof.
  unfold parseRequestBody, try_catch, bind.
  destruct (request_json w) as [[body|t] w1]; [|reflexivity].
  destruct validator as [check|]; [|exists w1; split; reflexivity].
  destruct (check body w1) as [[[|]|t] w2] eqn:Hc; cbn; [|reflexivity|reflexivity].
  exists w1. split; [reflexivity|exact Hc].
Qed.

(** X16. [parseRequestBody] throws one error only, "Invalid JSON in request
    body": a body that is not JSON, a validator that answers [false] (whose
    "Invalid request body format" is caught by the function's own [catch])
    and a validator that throws all read the same.  When it returns, the
    body is what [request.json()] gave and the validator, if any, said
    [true]. *)
Theorem parseRequestBody_outcomes (request_json : M json)
    (validator : option (json -> M bool)) (w : World) :
  match parseRequestBody request_json validator w with
  | (Returned body, w') =>
      exists w1,
        request_json w = (Returned body, w1) /\
        match validator with
        | Some check => check body w1 = (Returned true, w')
        | None => w' = w1
        end
  | (Thrown t, _) => t = ThrownError "Invalid JSON in request body"
  end.
Proof. apply parseRequestBody_cases. Qed.

(** X17. A domain handler that begins by parsing the body with
    [parseRequestBody] and is wrapped by [createApiHandler] answers every
    unusable body, malformed JSON and rejected shape alike, with status 500
    and code INTERNAL_SERVER_ERROR, the message being "Invalid JSON in
    request body". *)
Theorem unusable_body_answered_500 (request_json : M json)
    (validator : option (json -> M bool)) (continue : json -> DomainHandler)
    (options : ApiHandlerOptions) (request : NextRequest) (context : option json)
    (w w1 w2 : World) (u : option User) (t : thrown) :
  reaches_handler options request w w1 u ->
  parseRequestBody request_json validator
    (set_trace (trace w1 ++ [EvHandler request {| params := context; user := u |}]) w1)
  = (Thrown t, w2) ->
  exists r w',
    createApiHandler
      (fun req ctx => doM body <- parseRequestBody request_json validator ;;
                      continue body req ctx)
      options request context w = (Returned r, w') /\
    status r = 500 /\
    error_code_of r = Some (JStr "INTERNAL_SERVER_ERROR") /\
    error_message_of r = Some (JStr "Invalid JSON in request body").
Proof.
  intros (wa & wb & Hm & Hl & Ha) Hp.
  pose proof (parseRequestBody_cases request_json validator
                (set_trace (trace w1 ++ [EvHandler request
                                           {| params := context; user := u |}]) w1)) as Ht.
  rewrite Hp in Ht. subst t.
  rewrite createApiHandler_unfold, api_handler_try_stages.
  unfold try_catch at 1, bind at 1 2. rewrite Hm, Hl. unfold bind at 1. rewrite Ha.
  unfold handler_stage, bind at 1, emit at 1. unfold bind at 1. rewrite Hp.
  eexists _, _. split; [reflexivity|]. repeat split.
Qed.

Lemma unusable_body_answered_500_witness :
  exists r w',
    createApiHandler
      (fun req ctx =>
         doM body <- parseRequestBody (ret JNull) (Some api_validators.chatMessage) ;;
         created_handler req ctx)
      no_options sample_request None initial_world = (Returned r, w') /\
    status r = 500 /\
    error_code_of r = Some (JStr "INTERNAL_SERVER_ERROR") /\
    error_message_of r = Some (JStr "Invalid JSON in request body").
Proof.
  eapply (unusable_body_answered_500 (ret JNull) (Some api_validators.chatMessage)
            (fun _ => created_handler) no_options sample_request None initial_world
            (getAuthenticatedUser sample_request (after_request_id initial_world)).2
            _ None (ThrownError "Invalid JSON in request body")).
  - eexists _, _. split; [reflexivity|]. split; reflexivity.
  - reflexivity.
Defined.

(** ** Strings: sanitizing and UUIDs *)

Lemma chars_trim_start (s : string) (c : ascii) :
  In c (chars (trim_start s)) -> In c (chars s).
Proof.
  induction s as [|a s IH]; cbn; [tauto|].
  destruct (is_space a); [intros H; right; apply IH; exact H|tauto].
Qed.

Lemma chars_trim_end (s : string) (c : ascii) :
  In c (chars (trim_end s)) -> In c (chars s).
Proof.
  induction s as [|a s IH]; cbn; [tauto|].
  destruct (trim_end s) as [|b kept].
  - destruct (is_space a); cbn; tauto.
  - cbn in *. intros [H|H]; [left; exact H|right; apply IH; exact H].
Qed.

Lemma chars_take (n : nat) (s : string) (c : ascii) :
  In c (chars (take n s)) -> In c (chars s).
Proof.
  revert s. induction n as [|n IH]; intros [|a s]; cbn; try tauto.
  intros [H|H]; [left; exact H|right; apply IH; exact H].
Qed.

Lemma chars_strip (s : string) (c : ascii) :
  In c (chars (strip_angle_brackets s)) ->
  In c (chars s) /\ c <> "<"%char /\ c <> ">"%char.
Proof.
  induction s as [|a s IH]; cbn; [tauto|].
  destruct (Ascii.eqb a "<") eqn:Hlt; [cbn; intros H; apply IH in H; tauto|].
  destruct (Ascii.eqb a ">") eqn:Hgt; [cbn; intros H; apply IH in H; tauto|].
  cbn. intros [H|H]; [|apply IH in H; tauto].
  subst c. apply Ascii.eqb_neq in Hlt. apply Ascii.eqb_neq in Hgt. tauto.
Qed.

Lemma length_strip (s : string) :
  (String.length (strip_angle_brackets s) <= String.length s)%nat.
Proof.
  induction s as [|a s IH]; cbn; [lia|].
  destruct (Ascii.eqb a "<" || Ascii.eqb a ">"); cbn; lia.
Qed.

Lemma length_take (n : nat) (s : string) : (String.length (take n s) <= n)%nat.
Proof.
  revert s. induction n as [|n IH]; intros [|a s]; cbn; try lia.
  specialize (IH s). lia.
Qed.

Lemma take_all (n : nat) (s : string) : (String.length s <= n)%nat -> take n s = s.
Proof.
  revert s. induction n as [|n IH]; intros [|a s]; cbn; try reflexivity; try lia.
  intros H. rewrite IH by lia. reflexivity.
Qed.

Lemma strip_clean (s : string) :
  (forall c, In c (chars s) -> c <> "<"%char /\ c <> ">"%char) ->
  strip_angle_brackets s = s.
Proof.
  induction s as [|a s IH]; cbn; [reflexivity|]. intros H.
  destruct (H a (or_introl eq_refl)) as [Hlt Hgt].
  apply Ascii.eqb_neq in Hlt. apply Ascii.eqb_neq in Hgt. rewrite Hlt, Hgt. cbn.
  rewrite IH; [reflexivity|]. intros c Hc. apply H. right. exact Hc.
Qed.

(** X18. The output of [sanitizeString] holds no angle bracket, is at most
    [maxLength] characters long (none when [maxLength] is not positive) and
    is made of characters of the input only; an input that is already
    trimmed, short enough and free of angle brackets comes back unchanged. *)
Theorem sanitizeString_output (input : string) (maxLength : Z) :
  (forall c, In c (chars (sanitizeString input maxLength)) ->
             c <> "<"%char /\ c <> ">"%char /\ In c (chars input)) /\
  Z.of_nat (String.length (sanitizeString input maxLength)) <= Z.max 0 maxLength /\
  (trim input = input ->
   Z.of_nat (String.length input) <= maxLength ->
   (forall c, In c (chars input) -> c <> "<"%char /\ c <> ">"%char) ->
   sanitizeString input maxLength = input).
Proof.
  unfold sanitizeString. split; [|split].
  - intros c Hc. apply chars_strip in Hc. destruct Hc as (Hc & Hlt & Hgt).
    split; [exact Hlt|]. split; [exact Hgt|].
    apply chars_take in Hc. unfold trim in Hc.
    apply chars_trim_end in Hc. apply chars_trim_start in Hc. exact Hc.
  - pose proof (length_strip (take (Z.to_nat maxLength) (trim input))).
    pose proof (length_take (Z.to_nat maxLength) (trim input)). lia.
  - intros Htrim Hlen Hclean. rewrite Htrim, take_all by lia.
    apply strip_clean. exact Hclean.
Qed.

Lemma hex_class_is_hex_digit (c : ascii) :
  ignore_case hex_lower c = true -> is_hex_digit c = true.
Proof.
  destruct c as [[] [] [] [] [] [] [] []]; vm_compute; intros H;
    first [reflexivity | discriminate H].
Qed.

Lemma dash_class_is_dash (c : ascii) :
  ignore_case (Ascii.eqb "-") c = true -> Ascii.eqb "-" c = true.
Proof.
  destruct c as [[] [] [] [] [] [] [] []]; vm_compute; intros H;
    first [reflexivity | discriminate H].
Qed.

Lemma version_class_is_one_to_five (c : ascii) :
  ignore_case one_to_five c = true <-> one_to_five c = true.
Proof.
  destruct c as [[] [] [] [] [] [] [] []]; vm_compute; split; intros H;
    first [reflexivity | discriminate H].
Qed.

Lemma variant_class_is_variant_digit (c : ascii) :
  ignore_case variant_lower c = true -> is_variant_digit c = true.
Proof.
  destruct c as [[] [] [] [] [] [] [] []]; vm_compute; intros H;
    first [reflexivity | discriminate H].
Qed.

Lemma fits_app_intro (ps1 ps2 : list (ascii -> bool)) (s2 : string) :
  forall s1, fits ps1 s1 = true -> fits ps2 s2 = true ->
             fits (ps1 ++ ps2) (s1 +:+ s2) = true.
Proof.
  induction ps1 as [|p ps1 IH]; intros [|c s1] H1 H2; cbn in H1; try discriminate.
  - exact H2.
  - apply andb_prop in H1. destruct H1 as [Hp H1].
    change (String c s1 +:+ s2) with (String c (s1 +:+ s2)). cbn.
    rewrite Hp. apply IH; assumption.
Qed.

Lemma lang_cat_fits (r1 r2 : regex) (ps1 ps2 : list (ascii -> bool)) :
  (forall t, lang r1 t -> fits ps1 t = true) ->
  (forall t, lang r2 t -> fits ps2 t = true) ->
  forall s, lang (Cat r1 r2) s -> fits (ps1 ++ ps2) s = true.
Proof.
  intros H1 H2 s H. apply lang_cat_inv in H. destruct H as (s1 & s2 & -> & L1 & L2).
  apply fits_app_intro; [apply H1|apply H2]; assumption.
Qed.

Lemma lang_class_fits (p q : ascii -> bool) :
  (forall c, p c = true -> q c = true) ->
  forall s, lang (Class p) s -> fits [q] s = true.
Proof.
  intros Hpq s H. apply lang_class_inv in H. destruct H as (c & -> & Hc).
  cbn. rewrite (Hpq c Hc). reflexivity.
Qed.

Lemma lang_repeat_fits (p q : ascii -> bool) (n : nat) :
  (forall c, p c = true -> q c = true) ->
  forall s, lang (Repeat n (Class p)) s -> fits (repeat q n) s = true.
Proof.
  intros Hpq. induction n as [|n IH]; intros s H; cbn [Repeat repeat] in *.
  - inversion H. reflexivity.
  - apply lang_cat_inv in H. destruct H as (s1 & s2 & -> & L1 & L2).
    apply lang_class_inv in L1. destruct L1 as (c & -> & Hc).
    change (String c "" +:+ s2) with (String c s2). cbn.
    rewrite (Hpq c Hc). apply IH. exact L2.
Qed.

Lemma fits_length (ps : list (ascii -> bool)) :
  forall s, fits ps s = true -> String.length s = length ps.
Proof.
  induction ps as [|p ps IH]; intros [|c s] H; cbn in H; try discriminate.
  - reflexivity.
  - apply andb_prop in H. destruct H as [_ H]. cbn. rewrite (IH s H). reflexivity.
Qed.

(** X19. [isValidUUID] accepts exactly the 36-character strings made of
    five groups of hexadecimal digits of either case, 8-4-4-4-12, whose
    third group starts with a version digit 1 to 5 and whose fourth group
    starts with 8, 9, a or b; identifiers of any other version or variant
    are refused. *)
Theorem isValidUUID_shape (s : string) :
  (isValidUUID s = true <-> fits uuid_template s = true) /\
  (isValidUUID s = true -> String.length s = 36%nat).
Proof.
  assert (isValidUUID s = true <-> fits uuid_template s = true) as Hiff.
  { unfold isValidUUID. rewrite test_lang. split.
    - revert s. unfold uuid_template, uuidRegex. cbv zeta.
      repeat (apply lang_cat_fits;
              [first [apply lang_repeat_fits; exact hex_class_is_hex_digit
                     |apply lang_class_fits; exact dash_class_is_dash
                     |apply lang_class_fits; intros c; apply version_class_is_one_to_five
                     |apply lang_class_fits; exact variant_class_is_variant_digit]|]).
      apply lang_repeat_fits. exact hex_class_is_hex_digit.
    - revert s. unfold uuid_template, uuidRegex. cbv zeta.
      repeat (apply fits_cat;
              [first [apply fits_repeat; exact hex_digit_in_class
                     |apply fits_single; exact dash_in_class
                     |apply fits_single; intros c; apply version_class_is_one_to_five
                     |apply fits_single; exact variant_digit_in_class]|]).
      apply fits_repeat. exact hex_digit_in_class. }
  split; [exact Hiff|].
  intros H. apply Hiff in H. apply fits_length in H. exact H.
Qed.

(** ** Pagination *)

Lemma to_number_exact (z : Z) : Z.abs z <= 2 ^ 53 -> to_number z = Num z.
Proof.
  intros Hz. unfold to_number, to_double, round_magnitude.
  replace (Z.abs z <=? 2 ^ 53) with true by (symmetry; apply Z.leb_le; exact Hz).
  assert (Z.sgn z * Z.abs z = z) as -> by (destruct z; cbn; lia).
  assert (2 ^ 53 < 2 ^ 1024) as Hlt by (apply Z.pow_lt_mono_r; lia).
  replace (2 ^ 1024 <=? Z.abs z) with false; [reflexivity|].
  symmetry. apply Z.leb_gt. eapply Z.le_lt_trans; [exact Hz|exact Hlt].
Qed.

Lemma round_magnitude_nonneg (a : Z) : 0 <= a -> 0 <= round_magnitude a.
Proof.
  intros Ha. unfold round_magnitude.
  destruct (a <=? 2 ^ 53); [exact Ha|].
  assert (0 <= 2 ^ (Z.log2 a - 52)) as Hulp by (apply Z.pow_nonneg; lia).
  assert (0 <= a / 2 ^ (Z.log2 a - 52)) as Hq.
  { destruct (Z.eq_dec (2 ^ (Z.log2 a - 52)) 0) as [E|E].
    - rewrite E, Z.div_0_r. lia.
    - apply Z.div_pos; lia. }
  cbv zeta.
  destruct (2 * (a mod 2 ^ (Z.log2 a - 52)) <? 2 ^ (Z.log2 a - 52));
    [apply Z.mul_nonneg_nonneg; assumption|].
  destruct (2 ^ (Z.log2 a - 52) <? 2 * (a mod 2 ^ (Z.log2 a - 52)));
    [apply Z.mul_nonneg_nonneg; [lia|assumption]|].
  destruct (Z.even (a / 2 ^ (Z.log2 a - 52)));
    apply Z.mul_nonneg_nonneg; solve [assumption|lia].
Qed.

Lemma to_number_nonneg (z : Z) : 0 <= z -> number_nonneg (to_number z).
Proof.
  intros Hz. unfold to_number.
  replace (z <? 0) with false by (symmetry; apply Z.ltb_ge; exact Hz).
  destruct (2 ^ 1024 <=? Z.abs (to_double z)); cbn; [exact I|].
  unfold to_double. apply Z.mul_nonneg_nonneg.
  - destruct z; cbn; lia.
  - apply round_magnitude_nonneg. lia.
Qed.

Lemma number_mul_nonneg (a : number) (b : Z) :
  number_nonneg a -> 1 <= b -> number_nonneg (number_mul a b).
Proof.
  intros Ha Hb. destruct a as [x| | |]; cbn in Ha |- *; try contradiction.
  - apply to_number_nonneg. apply Z.mul_nonneg_nonneg; lia.
  - replace (b =? 0) with false by (symmetry; apply Z.eqb_neq; lia).
    replace (b <? 0) with false by (symmetry; apply Z.ltb_ge; lia).
    exact I.
Qed.

(** The product is rounded: with page 2^53 and limit 20 the offset is not
    [(2^53 - 1) * 20] but the double next to it. *)
Lemma getPaginationParams_rounds_offset :
  offset (getPaginationParams (Some (2 ^ 53)) (Some 20) 20 100)
  = Num 180143985094819808 /\
  (2 ^ 53 - 1) * 20 = 180143985094819820.
Proof. split; vm_compute; reflexivity. Qed.


(** ** Type guards of the chat routes *)

Lemma trim_nonempty (text : string) :
  0 < Z.of_nat (String.length (trim text)) -> 1 <= Z.of_nat (String.length text).
Proof. destruct text; cbn; lia. Qed.

Lemma filled_string_inv (v : option json) (bound : Z) :
  api_validators.filled_string v bound = true ->
  exists text, v = Some (JStr text) /\
               1 <= Z.of_nat (String.length text) <= bound /\
               trim text <> "".
Proof.
  unfold api_validators.filled_string.
  destruct v as [[| | |text| | |]|]; try discriminate.
  intros H. apply andb_prop in H. destruct H as [Ht Hl].
  apply Z.ltb_lt in Ht. apply Z.leb_le in Hl.
  exists text. split; [reflexivity|]. split; [split; [apply trim_nonempty; exact Ht|exact Hl]|].
  intros E. rewrite E in Ht. cbn in Ht. lia.
Qed.

(** X21. A body that [validators.chatMessage] accepts is an object whose
    [message] is a string of 1 to 4000 characters that is not all white
    space, and whose [chatId] is absent or a string; the guard has no
    effect on the world. *)
Theorem chatMessage_accepts_bounded (data : json) (w w' : World) :
  api_validators.chatMessage data w = (Returned true, w') ->
  w' = w /\
  exists fields text,
    data = JObj fields /\
    assoc "message" fields = Some (JStr text) /\
    1 <= Z.of_nat (String.length text) <= 4000 /\
    trim text <> "" /\
    (assoc "chatId" fields = None \/ exists c, assoc "chatId" fields = Some (JStr c)).
Proof.
  unfold api_validators.chatMessage.
  destruct data as [| | | | | |fields]; cbn; try discriminate;
    try (intros H; injection H as H _; discriminate H).
  intros H. injection H as H <-. split; [reflexivity|].
  apply andb_prop in H. destruct H as [Hm Hc].
  apply filled_string_inv in Hm. destruct Hm as (text & Hm & Hlen & Htrim).
  exists fields, text. split; [reflexivity|]. split; [exact Hm|].
  split; [exact Hlen|]. split; [exact Htrim|].
  destruct (assoc "chatId" fields) as [[| | |c| | |]|]; try discriminate Hc;
    [right; eauto|left; reflexivity].
Qed.

Lemma chatMessage_accepts_bounded_witness :
  initial_world = initial_world /\
  exists fields text,
    JObj [("message", JStr "Weather in Tokyo"); ("chatId", JStr "c1")] = JObj fields /\
    assoc "message" fields = Some (JStr text) /\
    1 <= Z.of_nat (String.length text) <= 4000 /\
    trim text <> "" /\
    (assoc "chatId" fields = None \/ exists c, assoc "chatId" fields = Some (JStr c)).
Proof.
  apply (chatMessage_accepts_bounded
           (JObj [("message", JStr "Weather in Tokyo"); ("chatId", JStr "c1")])
           initial_world initial_world).
  reflexivity.
Defined.

(** X22. Every body [validators.createChat] accepts, [validators.updateChat]
    accepts too, and its [title] is a string of 1 to 100 characters that is
    not all white space. *)
Theorem createChat_implies_updateChat (data : json) (w w' : World) :
  api_validators.createChat data w = (Returned true, w') ->
  api_validators.updateChat data w = (Returned true, w') /\
  exists text,
    api_validators.property "title" data = Some (JStr text) /\
    1 <= Z.of_nat (String.length text) <= 100 /\
    trim text <> "".
Proof.
  unfold api_validators.createChat, api_validators.updateChat.
  destruct data as [| | | | | |fields]; cbn; try discriminate;
    try (intros H; injection H as H _; discriminate H).
  intros H. injection H as H <-.
  destruct (filled_string_inv _ _ H) as (text & Hp & Hlen & Htrim).
  rewrite Hp in H |- *. unfold ret. unfold api_validators.filled_string in H.
  rewrite H.
  split; [reflexivity|]. exists text. split; [reflexivity|]. split; assumption.
Qed.

Lemma createChat_implies_updateChat_witness :
  api_validators.updateChat (JObj [("title", JStr "Trip")]) initial_world
  = (Returned true, initial_world) /\
  exists text,
    api_validators.property "title" (JObj [("title", JStr "Trip")]) = Some (JStr text) /\
    1 <= Z.of_nat (String.length text) <= 100 /\
    trim text <> "".
Proof.
  apply (createChat_implies_updateChat (JObj [("title", JStr "Trip")])
           initial_world initial_world).
  reflexivity.
Defined.

(** ** Fixed window limiter: what one call reports and what it leaves *)

Lemma swept_lookup (now : Z) (m : gmap string RateLimitRecord) (k : string) :
  swept now m !! k
  = match m !! k with
    | Some r => if expired now r then None else Some r
    | None => None
    end.
Proof.
  unfold swept. destruct (m !! k) as [r|] eqn:E.
  - destruct (expired now r) eqn:Ex.
    + apply map_lookup_filter_None. right. intros x Hx. rewrite E in Hx.
      injection Hx as <-. cbn. rewrite Ex. discriminate.
    + apply map_lookup_filter_Some. split; [exact E|exact Ex].
  - apply map_lookup_filter_None. left. exact E.
Qed.

(** X23. What a call of [check] reports is what it stores: [remaining] is
    never negative; on admission the stored count is at most [maxRequests]
    and [remaining] is [maxRequests] minus that count, with the reported
    [resetTime] the stored one; on rejection [remaining] is 0 and the key's
    record is the one [cleanup] left. *)
Theorem check_reports_what_it_stores (config : RateLimitConfig) (request : NextRequest)
    (key : string) (w : World) :
  generates_key config request key ->
  exists res w',
    RateLimiter.check config request w = (Returned res, w') /\
    0 <= remaining res /\
    (allowed res = true ->
       exists r', store w' !! key = Some r' /\
                  count r' <= maxRequests config /\
                  remaining res = maxRequests config - count r' /\
                  cr_resetTime res = resetTime r') /\
    (allowed res = false ->
       remaining res = 0 /\
       store w' !! key = swept (clock w (ticks w)) (store w) !! key).
Proof.
  intros Hkey. rewrite (check_step config request key Hkey). cbv zeta.
  set (record := current_record config _ _).
  destruct (Z.ltb_spec (count record) (maxRequests config)) as [Hlt|Hge].
  - eexists _, _. split; [reflexivity|]. cbn [allowed remaining cr_resetTime].
    split; [lia|]. split; [|discriminate].
    intros _. eexists. split; [cbn; apply lookup_insert_eq|]. cbn. lia.
  - eexists _, _. split; [reflexivity|]. cbn [allowed remaining cr_resetTime].
    split; [lia|]. split; [discriminate|].
    intros _. split; [lia|reflexivity].
Qed.

Lemma check_reports_what_it_stores_witness :
  exists res w',
    RateLimiter.check authLimiter sample_request initial_world = (Returned res, w') /\
    0 <= remaining res /\
    (allowed res = true ->
       exists r', store w' !! "rate_limit:203.0.113.7" = Some r' /\
                  count r' <= maxRequests authLimiter /\
                  remaining res = maxRequests authLimiter - count r' /\
                  cr_resetTime res = resetTime r') /\
    (allowed res = false ->
       remaining res = 0 /\
       store w' !! "rate_limit:203.0.113.7"
       = swept (clock initial_world (ticks initial_world)) (store initial_world)
           !! "rate_limit:203.0.113.7").
Proof.
  apply (check_reports_what_it_stores authLimiter sample_request
           "rate_limit:203.0.113.7" initial_world).
  intros w. reflexivity.
Defined.

(** X24. A call of [check] for one key never changes the record of another
    key: the other record is still there, count and window untouched, if
    its window had not ended when [cleanup] read the clock, and it is gone
    otherwise. *)
Theorem check_leaves_other_keys (config : RateLimitConfig) (request : NextRequest)
    (key other : string) (w : World) :
  generates_key config request key ->
  other <> key ->
  exists res w',
    RateLimiter.check config request w = (Returned res, w') /\
    store w' !! other
    = match store w !! other with
      | Some r => if resetTime r <? clock w (ticks w) then None else Some r
      | None => None
      end.
Proof.
  intros Hkey Hne. rewrite (check_step config request key Hkey). cbv zeta.
  destruct (_ <? maxRequests config); eexists _, _; (split; [reflexivity|]); cbn.
  - rewrite lookup_insert_ne by congruence. apply swept_lookup.
  - apply swept_lookup.
Qed.

Lemma check_leaves_other_keys_witness :
  exists res w',
    RateLimiter.check chatLimiter sample_request
      (set_store {[ "rate_limit:198.51.100.4" := {| count := 7; resetTime := 30000 |} ]}
         initial_world) = (Returned res, w') /\
    store w' !! "rate_limit:198.51.100.4"
    = match store (set_store {[ "rate_limit:198.51.100.4" :=
                                  {| count := 7; resetTime := 30000 |} ]} initial_world)
            !! "rate_limit:198.51.100.4" with
      | Some r => if resetTime r <? 0 then None else Some r
      | None => None
      end.
Proof.
  apply (check_leaves_other_keys chatLimiter sample_request "rate_limit:203.0.113.7"
           "rate_limit:198.51.100.4"
           (set_store {[ "rate_limit:198.51.100.4" :=
                           {| count := 7; resetTime := 30000 |} ]} initial_world)).
  - intros w. reflexivity.
  - discriminate.
Defined.

(** X25. The store is shared by every limiter.  When two limiters derive
    the same key for a request, a call admitted by the first is counted by
    the second: as long as the first one's window has not ended, the second
    works on the first one's record, so it compares that count with its own
    [maxRequests] and reports the first one's [resetTime], whatever its own
    [windowMs] is. *)
Theorem limiters_share_records (first second : RateLimitConfig) (request : NextRequest)
    (key : string) (w w1 : World) (res1 : CheckResult) :
  generates_key first request key ->
  generates_key second request key ->
  RateLimiter.check first request w = (Returned res1, w1) ->
  allowed res1 = true ->
  clock w1 (ticks w1) <= cr_resetTime res1 ->
  clock w1 (S (ticks w1)) <= cr_resetTime res1 ->
  exists r1 res2 w2,
    store w1 !! key = Some r1 /\
    resetTime r1 = cr_resetTime res1 /\
    RateLimiter.check second request w1 = (Returned res2, w2) /\
    cr_resetTime res2 = cr_resetTime res1 /\
    allowed res2 = (count r1 <? maxRequests second) /\
    remaining res2 = Z.max 0 (maxRequests second - count r1 - 1).
Proof.
  intros Hk1 Hk2 Hcheck Hallowed Ht1 Ht2.
  rewrite (check_step first request key Hk1) in Hcheck. cbv zeta in Hcheck.
  set (record := current_record first _ _) in Hcheck.
  destruct (count record <? maxRequests first);
    injection Hcheck as <- <-; [|discriminate Hallowed].
  cbn [cr_resetTime] in Ht1, Ht2 |- *.
  set (r1 := {| count := count record + 1; resetTime := resetTime record |}).
  set (w1 := after_check _ w) in *.
  assert (store w1 !! key = Some r1) as Hr1.
  { subst w1. cbn. apply lookup_insert_eq. }
  destruct (current_record_live second key w1 r1 Hr1 Ht1 Ht2) as [Hs Hcur].
  rewrite (check_step second request key Hk2). cbv zeta. rewrite Hcur.
  exists r1. destruct (count r1 <? maxRequests second);
    eexists _, _; repeat split; exact Hr1.
Qed.

Lemma limiters_share_records_witness :
  exists r1 res2 w2,
    store (RateLimiter.check apiLimiter sample_request initial_world).2
      !! "rate_limit:203.0.113.7" = Some r1 /\
    resetTime r1 = 61000 /\
    RateLimiter.check authLimiter sample_request
      (RateLimiter.check apiLimiter sample_request initial_world).2
    = (Returned res2, w2) /\
    cr_resetTime res2 = 61000 /\
    allowed res2 = (count r1 <? maxRequests authLimiter) /\
    remaining res2 = Z.max 0 (maxRequests authLimiter - count r1 - 1).
Proof.
  apply (limiters_share_records apiLimiter authLimiter sample_request
           "rate_limit:203.0.113.7" initial_world
           (RateLimiter.check apiLimiter sample_request initial_world).2
           {| allowed := true; remaining := 99; cr_resetTime := 61000 |}).
  - intros w. reflexivity.
  - intros w. reflexivity.
  - rewrite (check_step apiLimiter sample_request "rate_limit:203.0.113.7"
               (fun w => eq_refl)).
    cbv zeta. unfold swept. cbn [store initial_world].
    rewrite map_filter_empty, lookup_empty. reflexivity.
  - reflexivity.
  - rewrite (check_step apiLimiter sample_request "rate_limit:203.0.113.7"
               (fun w => eq_refl)).
    cbv zeta. unfold swept. cbn [store initial_world].
    rewrite map_filter_empty, lookup_empty. cbn. lia.
  - rewrite (check_step apiLimiter sample_request "rate_limit:203.0.113.7"
               (fun w => eq_refl)).
    cbv zeta. unfold swept. cbn [store initial_world].
    rewrite map_filter_empty, lookup_empty. cbn. lia.
Defined.

(** X26. With [skipSuccessfulRequests] set, [updateCount(request, true)]
    after an admitted call gives the admission back: the key's record is
    again the one the call found in its window, and no other key is
    touched. *)
Theorem updateCount_undoes_admission (config : RateLimitConfig) (request : NextRequest)
    (key : string) (w w1 : World) (res : CheckResult) (r : RateLimitRecord) :
  generates_key config request key ->
  skipSuccessfulRequests config = true ->
  store w !! key = Some r ->
  0 <= count r ->
  clock w (ticks w) <= resetTime r ->
  clock w (S (ticks w)) <= resetTime r ->
  RateLimiter.check config request w = (Returned res, w1) ->
  allowed res = true ->
  exists w2,
    RateLimiter.updateCount config request true w1 = (Returned tt, w2) /\
    store w2 !! key = Some r /\
    (forall other, other <> key -> store w2 !! other = store w1 !! other).
Proof.
  intros Hkey Hskip Hr Hcount Ht1 Ht2 Hcheck Hallowed.
  destruct (current_record_live config key w r Hr Ht1 Ht2) as [Hs Hcur].
  rewrite (check_step config request key Hkey) in Hcheck. cbv zeta in Hcheck.
  rewrite Hcur in Hcheck.
  destruct (count r <? maxRequests config);
    injection Hcheck as <- <-; [|discriminate Hallowed].
  unfold RateLimiter.updateCount. rewrite Hskip. cbn [andb orb].
  unfold bind. rewrite Hkey. unfold get_store, put_store. cbn [store after_check set_store].
  rewrite lookup_insert_eq. cbn [count resetTime].
  eexists. split; [reflexivity|]. cbn [store set_store]. split.
  - rewrite lookup_insert_eq. destruct r as [c t]. cbn in *. f_equal. f_equal. lia.
  - intros other Hne. rewrite !lookup_insert_ne by congruence. reflexivity.
Qed.

Lemma updateCount_undoes_admission_witness :
  exists w2,
    RateLimiter.updateCount forgiving_config sample_request true
      (RateLimiter.check forgiving_config sample_request busy_world).2
    = (Returned tt, w2) /\
    store w2 !! "rate_limit:203.0.113.7" = Some {| count := 2; resetTime := 30000 |} /\
    (forall other, other <> "rate_limit:203.0.113.7" ->
       store w2 !! other
       = store (RateLimiter.check forgiving_config sample_request busy_world).2 !! other).
Proof.
  apply (updateCount_undoes_admission forgiving_config sample_request
           "rate_limit:203.0.113.7" busy_world
           (RateLimiter.check forgiving_config sample_request busy_world).2
           {| allowed := true; remaining := 2; cr_resetTime := 30000 |}
           {| count := 2; resetTime := 30000 |}).
  - intros w. reflexivity.
  - reflexivity.
  - apply lookup_singleton_eq.
  - cbn. lia.
  - cbn. lia.
  - cbn. lia.
  - vm_compute. reflexivity.
  - reflexivity.
Defined.

(** X27. A request whose key has used up its window, a record in the store
    with a count of [maxRequests] or more and a window that has not ended,
    is answered by the wrapper with 429 RATE_LIMITED: [Retry-After] is the
    number of seconds, rounded up, from the last reading of the clock to the
    record's [resetTime], [X-RateLimit-Remaining] is 0, the record is left
    as it was and nothing is logged, so neither the session lookup nor the
    domain handler ran. *)
Theorem exhausted_key_answered_429 (handler : DomainHandler)
    (options : ApiHandlerOptions) (config : RateLimitConfig) (request : NextRequest)
    (context : option json) (key : string) (w : World) (r : RateLimitRecord) :
  generates_key config request key ->
  method_permitted options request = true ->
  opt_rateLimiter options = Some (createRateLimit config) ->
  store w !! key = Some r ->
  maxRequests config <= count r ->
  clock w (S (ticks w)) <= resetTime r ->
  clock w (S (S (ticks w))) <= resetTime r ->
  exists resp w',
    createApiHandler handler options request context w = (Returned resp, w') /\
    status resp = 429 /\
    error_code_of resp = Some (JStr "RATE_LIMITED") /\
    assoc_header "Retry-After" (headers resp)
    = Some (toString (ceil_div (resetTime r - clock w (S (S (S (S (ticks w)))))) 1000)) /\
    assoc_header "X-RateLimit-Remaining" (headers resp) = Some "0" /\
    store w' !! key = Some r /\
    trace w' = trace w.
Proof.
  intros Hkey Hm Hopt Hr Hfull Ht1 Ht2.
  assert (store (after_request_id w) !! key = Some r) as Hr0 by exact Hr.
  destruct (current_record_live config key (after_request_id w) r Hr0 Ht1 Ht2)
    as [Hs Hcur].
  pose proof (check_step config request key Hkey (after_request_id w)) as Hstep.
  cbv zeta in Hstep. rewrite Hcur in Hstep.
  replace (count r <? maxRequests config) with false in Hstep
    by (symmetry; apply Z.ltb_ge; lia).
  replace (Z.max 0 (maxRequests config - count r - 1)) with 0 in Hstep by lia.
  destruct (createApiHandler_rejected handler options config request context w _ _
              Hm Hopt Hstep eq_refl) as (resp & Hrun & Hst & Hcode & _).
  rewrite Hrun. exists resp. eexists. split; [reflexivity|].
  split; [exact Hst|]. split; [exact Hcode|].
  rewrite createApiHandler_stages, (method_stage_pass _ _ _ Hm) in Hrun.
  unfold limiter_stage in Hrun. rewrite Hopt in Hrun.
  unfold createRateLimit, try_catch, bind in Hrun.
  cbn [limiter_check limiter_getHeaders limiter_message RateLimiter_Limiter] in Hrun.
  rewrite Hstep in Hrun. cbn in Hrun. injection Hrun as <-.
  cbn. repeat split. exact Hs.
Qed.

Lemma exhausted_key_answered_429_witness :
  exists resp w',
    createApiHandler created_handler limited_options sample_request None
      (set_store {[ "rate_limit:203.0.113.7" := {| count := 60; resetTime := 45000 |} ]}
         initial_world) = (Returned resp, w') /\
    status resp = 429 /\
    error_code_of resp = Some (JStr "RATE_LIMITED") /\
    assoc_header "Retry-After" (headers resp) = Some "41" /\
    assoc_header "X-RateLimit-Remaining" (headers resp) = Some "0" /\
    store w' !! "rate_limit:203.0.113.7" = Some {| count := 60; resetTime := 45000 |} /\
    trace w' = [].
Proof.
  apply (exhausted_key_answered_429 created_handler limited_options chatLimiter
           sample_request None "rate_limit:203.0.113.7"
           (set_store {[ "rate_limit:203.0.113.7" :=
                           {| count := 60; resetTime := 45000 |} ]} initial_world)
           {| count := 60; resetTime := 45000 |}).
  - intros w. reflexivity.
  - reflexivity.
  - reflexivity.
  - apply lookup_singleton_eq.
  - cbn. lia.
  - cbn. lia.
  - cbn. lia.
Defined.

(** ** Sliding window limiter: the guarantee over a run *)

Lemma filter_weaken {A} (p q : A -> bool) (l : list A) :
  (forall x, p x = true -> q x = true) ->
  List.filter p (List.filter q l) = List.filter p l.
Proof.
  intros Hpq. induction l as [|a l IH]; [reflexivity|]. cbn.
  destruct (q a) eqn:Hq; cbn.
  - rewrite IH. reflexivity.
  - destruct (p a) eqn:Hp; [rewrite (Hpq a Hp) in Hq; discriminate|exact IH].
Qed.

Lemma counts_against_earlier (window now later t : Z) :
  now <= later -> counts_against window later t = true ->
  counts_against window now t = true.
Proof. unfold counts_against. rewrite !Z.ltb_lt. lia. Qed.

Section SlidingRun.
Variable config : RateLimitConfig.
Variable request : NextRequest.
Variable key : string.
Hypothesis Hkey : generates_key config request key.

Lemma sliding_check_step (requests : gmap string (list Z)) (w : World) :
  SlidingWindowRateLimiter.check config request requests w
  = let now := clock w (ticks w) in
    let kept := List.filter (counts_against (windowMs config) now)
                  (recorded_for key requests) in
    if Z.of_nat (length kept) <? maxRequests config then
      (Returned ({| sw_allowed := true;
                    sw_remaining :=
                      Z.max 0 (maxRequests config - Z.of_nat (length kept) - 1) |},
                 <[key := (kept ++ [now])%list]> requests),
       set_ticks (S (ticks w)) w)
    else
      (Returned ({| sw_allowed := false;
                    sw_remaining :=
                      Z.max 0 (maxRequests config - Z.of_nat (length kept) - 0) |},
                 requests),
       set_ticks (S (ticks w)) w).
Proof.
  unfold SlidingWindowRateLimiter.check, bind, Date_now, ret. rewrite Hkey. cbn.
  rewrite sliding_filter_counts. unfold recorded_for.
  destruct (_ <? maxRequests config); reflexivity.
Qed.

Lemma sliding_run_bounded (n : nat) :
  forall (requests : gmap string (list Z)) (w : World) (history : list Z),
    monotone_clock w ->
    agree_from (windowMs config) (clock w (ticks w)) (recorded_for key requests)
      history ->
    exists flags requests' w',
      sliding_check_many config request n requests w
        = (Returned (flags, requests'), w') /\
      length flags = n /\
      forall i : nat,
        flags !! i = Some true ->
        Z.of_nat (length (List.filter
                            (counts_against (windowMs config) (clock w (ticks w + i)))
                            (history ++ admissions (clock w) (ticks w)
                                          (firstn (S i) flags))))
        <= maxRequests config.
Proof.
  induction n as [|n IH]; intros requests w history Hmono Hagree.
  - exists [], requests, w. split; [reflexivity|]. split; [reflexivity|].
    intros i Hi. rewrite lookup_nil in Hi. discriminate.
  - cbn [sliding_check_many]. unfold bind at 1. rewrite sliding_check_step. cbv zeta.
    set (now := clock w (ticks w)).
    set (kept := List.filter _ (recorded_for key requests)).
    assert (kept = List.filter (counts_against (windowMs config) now) history) as Hkept.
    { apply Hagree. subst now. lia. }
    assert (now <= clock w (S (ticks w))) as Hnext by apply Hmono.
    destruct (Z.ltb_spec (Z.of_nat (length kept)) (maxRequests config)) as [Hlt|Hge].
    + destruct (IH (<[key := (kept ++ [now])%list]> requests)
                  (set_ticks (S (ticks w)) w) (history ++ [now])%list)
        as (flags & requests' & w' & Hrun & Hlen & Hall).
      * exact Hmono.
      * intros later Hlater. cbn [clock ticks set_ticks] in Hlater.
        unfold recorded_for. rewrite lookup_insert_eq.
        rewrite !List.filter_app. f_equal. rewrite Hkept.
        apply filter_weaken. intros t. apply counts_against_earlier. lia.
      * cbn [snd]. unfold bind. rewrite Hrun. cbn [fst snd sw_allowed].
        eexists _, _, _. split; [reflexivity|]. split; [cbn; lia|].
        intros [|i] Hi.
        -- cbn [firstn admissions]. rewrite Nat.add_0_r. fold now.
           rewrite app_nil_r, List.filter_app, List.length_app, <- Hkept.
           assert (length (List.filter (counts_against (windowMs config) now) [now])
                   <= 1)%nat by (cbn; destruct (counts_against _ _ _); cbn; lia).
           lia.
        -- cbn in Hi. specialize (Hall i Hi). cbn [clock ticks set_ticks] in Hall.
           replace (ticks w + S i)%nat with (S (ticks w) + i)%nat by lia.
           cbn [firstn admissions]. fold now.
           change ([now] ++ ?l)%list with (now :: l) in |- *.
           replace (history ++ now :: admissions (clock w) (S (ticks w))
                                       (firstn (S i) flags))%list
             with ((history ++ [now]) ++ admissions (clock w) (S (ticks w))
                                           (firstn (S i) flags))%list
             by (rewrite <- app_assoc; reflexivity).
           exact Hall.
    + destruct (IH requests (set_ticks (S (ticks w)) w) history)
        as (flags & requests' & w' & Hrun & Hlen & Hall).
      * exact Hmono.
      * intros later Hlater. cbn [clock ticks set_ticks] in Hlater.
        apply Hagree. fold now. lia.
      * cbn [snd]. unfold bind. rewrite Hrun. cbn [fst snd sw_allowed].
        eexists _, _, _. split; [reflexivity|]. split; [cbn; lia|].
        intros [|i] Hi; [discriminate Hi|].
        cbn in Hi. specialize (Hall i Hi). cbn [clock ticks set_ticks] in Hall.
        replace (ticks w + S i)%nat with (S (ticks w) + i)%nat by lia.
        cbn [firstn admissions]. cbn [app]. exact Hall.
Qed.
End SlidingRun.

(** X28. The sliding window keeps its promise over any run: starting with
    nothing recorded for the key and with a clock that never goes back, at
    every admitted call the admissions of the run that fall within
    [windowMs] before it, itself included, number at most [maxRequests]. *)
Theorem sliding_window_never_exceeds (config : RateLimitConfig) (request : NextRequest)
    (key : string) (n : nat) (requests : gmap string (list Z)) (w : World) :
  generates_key config request key ->
  monotone_clock w ->
  requests !! key = None ->
  exists flags requests' w',
    sliding_check_many config request n requests w = (Returned (flags, requests'), w') /\
    length flags = n /\
    forall i : nat,
      flags !! i = Some true ->
      Z.of_nat (length (List.filter
                          (counts_against (windowMs config) (clock w (ticks w + i)))
                          (admissions (clock w) (ticks w) (firstn (S i) flags))))
      <= maxRequests config.
Proof.
  intros Hkey Hmono Hnone.
  destruct (sliding_run_bounded config request key Hkey n requests w [] Hmono)
    as (flags & requests' & w' & Hrun & Hlen & Hall).
  - intros now _. unfold recorded_for. rewrite Hnone. reflexivity.
  - exists flags, requests', w'. split; [exact Hrun|]. split; [exact Hlen|]. exact Hall.
Qed.

Lemma sliding_window_never_exceeds_witness :
  exists flags requests' w',
    sliding_check_many (default_config 2500 2) sample_request 6 ∅ initial_world
      = (Returned (flags, requests'), w') /\
    length flags = 6%nat /\
    forall i : nat,
      flags !! i = Some true ->
      Z.of_nat (length (List.filter
                          (counts_against 2500 (clock initial_world (0 + i)))
                          (admissions (clock initial_world) 0 (firstn (S i) flags))))
      <= 2.
Proof.
  apply (sliding_window_never_exceeds (default_config 2500 2) sample_request
           "rate_limit:203.0.113.7" 6 ∅ initial_world).
  - intros w. reflexivity.
  - intros i. cbn. lia.
  - apply lookup_empty.
Defined.

(** X29. One call of the sliding window [check] touches the list of its
    own key only.  After an admitted call that list holds at most
    [maxRequests] timestamps and [remaining] is [maxRequests] minus its
    length; after a rejected call the map is the same and [remaining] is
    0. *)
Theorem sliding_check_bounds_list (config : RateLimitConfig) (request : NextRequest)
    (key : string) (requests : gmap string (list Z)) (w : World) :
  generates_key config request key ->
  exists res requests' w',
    SlidingWindowRateLimiter.check config request requests w
      = (Returned (res, requests'), w') /\
    (forall other, other <> key -> requests' !! other = requests !! other) /\
    0 <= sw_remaining res /\
    (sw_allowed res = true ->
       Z.of_nat (length (recorded_for key requests')) <= maxRequests config /\
       sw_remaining res
       = maxRequests config - Z.of_nat (length (recorded_for key requests'))) /\
    (sw_allowed res = false -> requests' = requests /\ sw_remaining res = 0).
Proof.
  intros Hkey. rewrite (sliding_check_step config request key Hkey). cbv zeta.
  set (kept := List.filter _ _).
  destruct (Z.ltb_spec (Z.of_nat (length kept)) (maxRequests config)) as [Hlt|Hge];
    eexists _, _, _; (split; [reflexivity|]); cbn [sw_allowed sw_remaining].
  - split; [intros other Hne; apply lookup_insert_ne; congruence|].
    split; [lia|]. split; [|discriminate].
    intros _. unfold recorded_for. rewrite lookup_insert_eq, List.length_app. cbn. lia.
  - split; [reflexivity|]. split; [lia|]. split; [discriminate|].
    intros _. split; [reflexivity|lia].
Qed.

Lemma sliding_check_bounds_list_witness :
  exists res requests' w',
    SlidingWindowRateLimiter.check (default_config 60000 3) sample_request
      {[ "rate_limit:203.0.113.7" := [-70000; -50000; -100] ]} initial_world
      = (Returned (res, requests'), w') /\
    (forall other, other <> "rate_limit:203.0.113.7" ->
       requests' !! other
       = ({[ "rate_limit:203.0.113.7" := [-70000; -50000; -100] ]}
            : gmap string (list Z)) !! other) /\
    0 <= sw_remaining res /\
    (sw_allowed res = true ->
       Z.of_nat (length (recorded_for "rate_limit:203.0.113.7" requests')) <= 3 /\
       sw_remaining res
       = 3 - Z.of_nat (length (recorded_for "rate_limit:203.0.113.7" requests'))) /\
    (sw_allowed res = false ->
       requests' = {[ "rate_limit:203.0.113.7" := [-70000; -50000; -100] ]} /\
       sw_remaining res = 0).
Proof.
  apply (sliding_check_bounds_list (default_config 60000 3) sample_request
           "rate_limit:203.0.113.7"
           {[ "rate_limit:203.0.113.7" := [-70000; -50000; -100] ]} initial_world).
  intros w. reflexivity.
Defined.

(** X30. The sliding window [cleanup] keeps, for every key, exactly the
    timestamps newer than [now - windowMs], and drops the key altogether
    when none is left: no empty list stays in the map. *)
Theorem sliding_cleanup_keeps_live (config : RateLimitConfig)
    (requests : gmap string (list Z)) (w : World) :
  exists requests',
    SlidingWindowRateLimiter.cleanup config requests w
      = (Returned requests', set_ticks (S (ticks w)) w) /\
    forall (k : string) (kept : list Z),
      requests' !! k = Some kept <->
      kept <> [] /\
      exists l, requests !! k = Some l /\
                kept = List.filter (counts_against (windowMs config) (clock w (ticks w))) l.
Proof.
  unfold SlidingWindowRateLimiter.cleanup, bind, Date_now, ret. cbn.
  eexists. split; [reflexivity|]. intros k kept.
  rewrite map_lookup_filter_Some, lookup_fmap. cbn. split.
  - intros [Hl Hne]. split; [exact Hne|].
    destruct (requests !! k) as [l|]; [|discriminate Hl].
    cbn in Hl. injection Hl as <-. exists l. split; [reflexivity|].
    apply sliding_filter_counts.
  - intros [Hne (l & Hl & ->)]. split; [|exact Hne].
    rewrite Hl. cbn. f_equal. apply sliding_filter_counts.
Qed.
